(** * tk-multi-loader2: [python/tk_multi_loader/utils.py]

    A shallow embedding of the list and path utilities of the loader
    ([filter_publishes], [resolve_filters], [sequence_range_from_path],
    [find_sequence_range]) together with the properties stated about them.

    Conventions.
    - A Python [str] is a [string] (a sequence of 8-bit characters).
    - A call that may raise is a computation in the [result] monad; the
      exception that escapes is the first one raised in evaluation order.
    - The file system ([glob.glob]), the toolkit instance ([tk]), the hook
      runner ([app.execute_hook]) and the current context ([app.context])
      are collaborators outside the module: they are parameters. *)

From Stdlib Require Import ZArith Ascii String List Lia.
From stdpp Require Import base option list strings gmap.

Local Open Scope Z_scope.
Local Open Scope string_scope.

(** ** Exceptions and results *)

Inductive exn : Type :=
  | TankError                      (* sgtk.TankError *)
  | AttributeError
  | ValueError
  | TypeError
  | KeyError
  | OtherError (name : string).    (* any other exception class *)

Inductive result (A : Type) : Type :=
  | Returns (a : A)
  | Raises (e : exn).
Arguments Returns {A} a.
Arguments Raises {A} e.

#[global] Instance result_ret : MRet result := @Returns.
#[global] Instance result_bind : MBind result := λ A B f m,
  match m with
  | Returns a => f a
  | Raises e => Raises e
  end.

#[global] Instance result_fmap : FMap result := λ A B f m,
  match m with
  | Returns a => Returns (f a)
  | Raises e => Raises e
  end.

Definition is_raised {A} (r : result A) : Prop := ∃ e, r = Raises e.

(** ** Characters and strings *)

Definition LF : ascii := "010"%char.

(** The value of a decimal digit: the characters ['0'] to ['9'] have the
    codes 48 to 57. *)
Definition digit_value (c : ascii) : option Z :=
  let code := Z.of_N (N_of_ascii c) in
  if (48 <=? code)%Z && (code <=? 57)%Z then Some (code - 48)%Z else None.

(** [\d] and [[0-9]] on 8-bit strings. *)
Definition is_digit (c : ascii) : bool :=
  match digit_value c with Some _ => true | None => false end.

(** The character class [[0-9#]]. *)
Definition is_frame_char (c : ascii) : bool :=
  is_digit c || Ascii.eqb c "#".

Fixpoint all_chars (P : ascii → bool) (s : string) : bool :=
  match s with
  | "" => true
  | String c s' => P c && all_chars P s'
  end.

Fixpoint repeat_char (c : ascii) (n : nat) : string :=
  match n with
  | O => ""
  | S k => String c (repeat_char c k)
  end.

(** The last character of a string, if any. *)
Fixpoint last_char (s : string) : option ascii :=
  match s with
  | "" => None
  | String c "" => Some c
  | String _ s' => last_char s'
  end.

(** ** [os.path.splitext] (posixpath)

    [genericpath._splitext(p, sep="/", altsep=None, extsep=".")]. *)

(** [p.rfind(c)]: index of the last occurrence, or -1. *)
Fixpoint rfind_from (c : ascii) (p : string) (i last : Z) : Z :=
  match p with
  | "" => last
  | String a p' => rfind_from c p' (i + 1) (if Ascii.eqb a c then i else last)
  end.

Definition rfind (c : ascii) (p : string) : Z := rfind_from c p 0 (-1).

(** The loop [while filenameIndex < dotIndex] that skips leading dots:
    [true] when it meets a character other than the dot (the function then
    returns the split), [false] when it runs to [dotIndex]. *)
Fixpoint meets_non_dot (p : string) (filenameIndex : Z) (steps : nat) : bool :=
  match steps with
  | O => false
  | S k =>
      match String.get (Z.to_nat filenameIndex) p with
      | Some c =>
          if Ascii.eqb c "." then meets_non_dot p (filenameIndex + 1) k
          else true
      | None => true
      end
  end.

Definition splitext (p : string) : string * string :=
  let sepIndex := rfind "/" p in
  let dotIndex := rfind "." p in
  if (sepIndex <? dotIndex)%Z
     && meets_non_dot p (sepIndex + 1) (Z.to_nat (dotIndex - (sepIndex + 1)))
  then (substring 0 (Z.to_nat dotIndex) p,
        substring (Z.to_nat dotIndex) (String.length p - Z.to_nat dotIndex) p)
  else (p, "").

(** ** The frame pattern [([0-9#]+|[%]0\dd)$] *)

(** [$] without [re.MULTILINE]: at the end of the string, or just before a
    newline that is the last character. The argument is the text that is
    left at the current position. *)
Definition at_dollar (rest : string) : bool :=
  match rest with
  | "" => true
  | String c "" => Ascii.eqb c LF
  | _ => false
  end.

(** First alternative, [[0-9#]+] then [$], at the start of [s]: the greedy
    repetition first tries to take one more character and gives characters
    back only when what follows fails. *)
Fixpoint match_run (s : string) : option string :=
  match s with
  | "" => None
  | String c s' =>
      if is_frame_char c then
        match match_run s' with
        | Some g => Some (String c g)
        | None => if at_dollar s' then Some (String c "") else None
        end
      else None
  end.

(** Second alternative, [[%]0\dd] then [$], at the start of [s]. *)
Definition match_printf (s : string) : option string :=
  match s with
  | String a (String b (String d (String e rest))) =>
      if Ascii.eqb a "%" && Ascii.eqb b "0" && is_digit d && Ascii.eqb e "d"
         && at_dollar rest
      then Some (String a (String b (String d (String e ""))))
      else None
  | _ => None
  end.

(** The whole pattern anchored at the start of [s]; the result is the
    matched text, which is also [group(1)]. *)
Definition match_at (s : string) : option string :=
  match match_run s with
  | Some g => Some g
  | None => match_printf s
  end.

(** A match object: where the match starts and the text of [group(1)]. *)
Record Match : Type := { m_start : nat; m_group : string }.

Definition shift_match (m : Match) : Match :=
  {| m_start := S (m_start m); m_group := m_group m |}.

(** [re.search(frame_pattern, s)]: the match at the leftmost position that
    has one. *)
Fixpoint re_search (s : string) : option Match :=
  match match_at s with
  | Some g => Some {| m_start := 0; m_group := g |}
  | None =>
      match s with
      | "" => None
      | String _ s' => shift_match <$> re_search s'
      end
  end.

(** [re.sub(frame_pattern, "*", s)]: scan from the left; where the pattern
    matches, write the replacement and resume after the matched text,
    elsewhere copy the character. [skip] counts the characters of a match
    that are still to be passed over. *)
Fixpoint re_sub_from (skip : nat) (s : string) : string :=
  match skip with
  | S k =>
      match s with
      | "" => ""
      | String _ s' => re_sub_from k s'
      end
  | O =>
      match s with
      | "" => ""
      | String c s' =>
          match match_at s with
          | Some g => String "*" (re_sub_from (Nat.pred (String.length g)) s')
          | None => String c (re_sub_from 0 s')
          end
      end
  end.

Definition re_sub (s : string) : string := re_sub_from 0 s.

(** ** [int], [min], [max] *)

Fixpoint int_digits (acc : Z) (s : string) : option Z :=
  match s with
  | "" => Some acc
  | String c s' =>
      match digit_value c with
      | Some d => int_digits (10 * acc + d) s'
      | None => None
      end
  end.

(** [int(s)] for the text of a frame token. Such a text is made of digits,
    [#], [%] and [d] only, so signs, blanks and digit separators, which
    [int] also reads, do not occur: a text of digits is its base-10 value
    and any other text raises [ValueError]. *)
Definition py_int (s : string) : result Z :=
  match s with
  | "" => Raises ValueError
  | _ =>
      match int_digits 0 s with
      | Some z => Returns z
      | None => Raises ValueError
      end
  end.

(** [min(frames)] and [max(frames)] on integers; [ValueError] on an empty
    list. *)
Definition py_min (frames : list Z) : result Z :=
  match frames with
  | [] => Raises ValueError
  | x :: xs => Returns (foldl Z.min x xs)
  end.

Definition py_max (frames : list Z) : result Z :=
  match frames with
  | [] => Raises ValueError
  | x :: xs => Returns (foldl Z.max x xs)
  end.

(** ** [sequence_range_from_path] *)

Section PatternResolver.

(** [glob.glob] on the disk the call runs against. *)
Variable glob : string → list string.

(** [int(re.search(frame_pattern, f).group(1))]: on [None] the attribute
    access raises. *)
Definition frame_of_root (f : string) : result Z :=
  match re_search f with
  | None => Raises AttributeError
  | Some m => py_int (m_group m)
  end.

Definition glob_path_of (root ext : string) : string :=
  re_sub root +:+ ext.

Definition sequence_range_from_path (path : string) : result (option (Z * Z)) :=
  let '(root, ext) := splitext path in
  match re_search root with
  | None => Returns None
  | Some _ =>
      let glob_path := glob_path_of root ext in
      let files := glob glob_path in
      let file_roots := map (λ f, fst (splitext f)) files in
      frames ← mapM frame_of_root file_roots;
      lo ← py_min frames;
      hi ← py_max frames;
      Returns (Some (lo, hi))
  end.

End PatternResolver.

(** ** A disk with a single directory

    [glob.glob(pathname)] for a process whose current directory lists the
    entries [names] and holds no sub-directory. The pattern language is that
    of [fnmatch] with the wildcards [*] and [?]; bracket expressions are not
    interpreted, so the model is meant for path names without [[]. *)

Module Disk.

(** [fnmatch.fnmatchcase(name, pat)]: the whole name against the pattern. *)
Fixpoint fnmatchcase (pat name : string) {struct pat} : bool :=
  match pat with
  | "" => match name with "" => true | _ => false end
  | String "*" pat' =>
      (fix any_rest (name : string) : bool :=
         fnmatchcase pat' name ||
         match name with
         | "" => false
         | String _ name' => any_rest name'
         end) name
  | String "?" pat' =>
      match name with
      | "" => false
      | String _ name' => fnmatchcase pat' name'
      end
  | String c pat' =>
      match name with
      | "" => false
      | String a name' => Ascii.eqb a c && fnmatchcase pat' name'
      end
  end.

(** [glob._ishidden]. *)
Definition ishidden (path : string) : bool :=
  match path with
  | String "." _ => true
  | _ => false
  end.

Fixpoint has_sep (path : string) : bool :=
  match path with
  | "" => false
  | String c path' => Ascii.eqb c "/" || has_sep path'
  end.

(** [glob._glob1(os.curdir, pattern)]. *)
Definition glob1 (names : list string) (pattern : string) : list string :=
  let names :=
    if ishidden pattern then names
    else List.filter (λ x, negb (ishidden x)) names in
  List.filter (fnmatchcase pattern) names.

(** [glob.glob(pathname)] for a pathname that holds a wildcard. A pathname
    with a directory part names no entry of this disk. *)
Definition glob (names : list string) (pathname : string) : list string :=
  if has_sep pathname then [] else glob1 names pathname.

End Disk.

(** ** Python values

    The values that travel through the hook, the filters and the template
    fields: [None], booleans, integers, strings, lists and dicts with string
    keys. A dict is its list of items in insertion order; a key is looked up
    from the front. *)

#[warnings="-register-all"]
Inductive value : Type :=
  | VNone
  | VBool (b : bool)
  | VInt (z : Z)
  | VStr (s : string)
  | VList (items : list value)
  | VDict (entries : list (string * value)).

(** [bool(v)]. *)
Definition py_truthy (v : value) : bool :=
  match v with
  | VNone => false
  | VBool b => b
  | VInt z => negb (z =? 0)%Z
  | VStr s => negb (String.eqb s "")
  | VList items => match items with [] => false | _ => true end
  | VDict entries => match entries with [] => false | _ => true end
  end.

(** [type(v).__name__]. *)
Definition type_name (v : value) : string :=
  match v with
  | VNone => "NoneType"
  | VBool _ => "bool"
  | VInt _ => "int"
  | VStr _ => "str"
  | VList _ => "list"
  | VDict _ => "dict"
  end.

Definition is_dict (v : value) : bool :=
  match v with VDict _ => true | _ => false end.

Fixpoint dict_lookup (entries : list (string * value)) (key : string) : option value :=
  match entries with
  | [] => None
  | (k, v) :: entries' => if String.eqb k key then Some v else dict_lookup entries' key
  end.

(** [d[key]]. *)
Definition dict_getitem (entries : list (string * value)) (key : string) : result value :=
  match dict_lookup entries key with
  | Some v => Returns v
  | None => Raises KeyError
  end.

(** [dict_lookup] with the continuation [found] applied in place to the
    value under [key]. A function that recurses on a value stored in a dict
    reaches that value through it. *)
Section LookupIn.
Context {R : Type} (key : string) (found : value → R) (missing : R).

Fixpoint dict_lookup_in (entries : list (string * value)) : R :=
  match entries with
  | [] => missing
  | (k, v) :: entries' =>
      if String.eqb k key then found v else dict_lookup_in entries'
  end.
End LookupIn.

(** [v.get(key)]: only a dict has the method. *)
Definition py_get (v : value) (key : string) : result value :=
  match v with
  | VDict entries => Returns (default VNone (dict_lookup entries key))
  | _ => Raises AttributeError
  end.

Fixpoint chars_of (s : string) : list value :=
  match s with
  | "" => []
  | String c s' => VStr (String c "") :: chars_of s'
  end.

(** [for x in v]: the elements of a list, the characters of a string, the
    keys of a dict; anything else is not iterable. *)
Definition py_iter (v : value) : result (list value) :=
  match v with
  | VList items => Returns items
  | VStr s => Returns (chars_of s)
  | VDict entries => Returns (VStr <$> entries.*1)
  | _ => Raises TypeError
  end.

(** ** [filter_publishes] *)

Inductive log_entry : Type :=
  | LogError (type_name : string)   (* app.log_error: unexpected result type *)
  | LogException.                   (* app.log_exception: hook failed *)

(** The part of [app] the function uses: [app.execute_hook(name,
    publishes=...)], which returns whatever the hook returns or raises
    whatever it raises. The log calls are recorded in the result. *)
Record App : Type := {
  execute_hook : string → value → result value
}.

Definition wrap_publish (sg_data : value) : value :=
  VDict [("sg_publish", sg_data)].

(** The loop that splits the publishes back out. *)
Fixpoint split_publishes (hook_publish_list : list value) (sg_data_list : list value)
  : result (list value) :=
  match hook_publish_list with
  | [] => Returns sg_data_list
  | item :: rest =>
      sg_data ← py_get item "sg_publish";
      split_publishes rest
        (if py_truthy sg_data then sg_data_list ++ [sg_data] else sg_data_list)
  end.

(** The body of the [try] block: the log it wrote and the list it built. No
    statement after [app.log_error] can raise, so a body that raises has
    written nothing. *)
Definition filter_publishes_try (app : App) (sg_data_list : value)
  : result (list log_entry * list value) :=
  items ← py_iter sg_data_list;
  let hook_publish_list := VList (wrap_publish <$> items) in
  hook_publish_list ← execute_hook app "filter_publishes_hook" hook_publish_list;
  let '(log, hook_publish_list) :=
    match hook_publish_list with
    | VList l => ([], l)
    | other => ([LogError (type_name other)], [])
    end in
  sg_data_list ← split_publishes hook_publish_list [];
  Returns (log, sg_data_list).

Definition filter_publishes (app : App) (sg_data_list : value)
  : list log_entry * list value :=
  match filter_publishes_try app sg_data_list with
  | Returns r => r
  | Raises _ => ([LogException], [])
  end.

(** ** [resolve_filters] *)

(** [app.context] of the current bundle. *)
Record Context : Type := {
  ctx_entity : value;
  ctx_step : value;
  ctx_project : value;
  ctx_task : value;
  ctx_user : value
}.

(** [field == token] for a string literal [token]. *)
Definition eq_str (field : value) (token : string) : bool :=
  match field with
  | VStr s => String.eqb s token
  | _ => false
  end.

(** The body of the loop over the fields of a filter. *)
Definition resolve_field (ctx : Context) (field : value) : result value :=
  if eq_str field "{context.entity}" then Returns (ctx_entity ctx)
  else if eq_str field "{context.step}" then Returns (ctx_step ctx)
  else if eq_str field "{context.project}" then Returns (ctx_project ctx)
  else if eq_str field "{context.project.id}" then
    if py_truthy (ctx_project ctx) then py_get (ctx_project ctx) "id"
    else Returns VNone
  else if eq_str field "{context.task}" then Returns (ctx_task ctx)
  else if eq_str field "{context.user}" then Returns (ctx_user ctx)
  else Returns field.

(** The [else] branch: a filter that is not a dict is iterated field by
    field. *)
Definition resolve_condition (ctx : Context) (filter : value) : result value :=
  fields ← py_iter filter;
  resolved_filter ← mapM (resolve_field ctx) fields;
  Returns (VList resolved_filter).

(** The body of the loop over the filters. In the dict branch the value
    under ["filters"] is reached through [dict_lookup_in], so that the
    recursion is structural; a missing key raises [KeyError]. Iterating a
    value other than a list yields strings, which are never dicts, so the
    loop body is then that of the [else] branch. *)
Fixpoint resolve_filter (ctx : Context) (filter : value) {struct filter} : result value :=
  match filter with
  | VDict entries =>
      operator ← dict_getitem entries "filter_operator";
      resolved ←
        dict_lookup_in "filters"
          (λ filters,
             match filters with
             | VList items => mapM (resolve_filter ctx) items
             | _ => items ← py_iter filters; mapM (resolve_condition ctx) items
             end)
          (Raises KeyError) entries;
      Returns (VDict [("filter_operator", operator); ("filters", VList resolved)])
  | _ => resolve_condition ctx filter
  end.

Definition resolve_filters (ctx : Context) (filters : value) : result (list value) :=
  items ← py_iter filters;
  mapM (resolve_filter ctx) items.

(** ** [find_sequence_range] *)

(** A template of the toolkit: [template.get_fields(path)] returns a dict
    from key names to values, or raises. *)
Record Template : Type := {
  get_fields : string → result (gmap string value)
}.

(** The toolkit instance [tk]. [template_from_path] returns a template or
    [None], or raises; [paths_from_template(template, fields, skip_keys)]
    returns paths, or raises. *)
Record Toolkit : Type := {
  template_from_path : string → result (option Template);
  paths_from_template :
    Template → gmap string value → list string → result (list string)
}.

Definition range_of_ints (r : option (Z * Z)) : option (value * value) :=
  (λ '(lo, hi), (VInt lo, VInt hi)) <$> r.

Section TemplateResolver.

Variable glob : string → list string.

(** The interpreter's [<] on the values of a template key. It is a
    parameter because it is the toolkit that decides what a key holds; on
    integers it is the order of the integers. *)
Variable value_lt : value → value → result bool.

(** [min(frames)]: the running minimum is replaced by an item that is
    smaller. *)
Fixpoint min_from (best : value) (rest : list value) : result value :=
  match rest with
  | [] => Returns best
  | item :: rest' =>
      value_lt item best ≫= λ smaller : bool,
      min_from (if smaller then item else best) rest'
  end.

(** [max(frames)]: the running maximum is replaced by an item that is
    greater. *)
Fixpoint max_from (best : value) (rest : list value) : result value :=
  match rest with
  | [] => Returns best
  | item :: rest' =>
      value_lt best item ≫= λ greater : bool,
      max_from (if greater then item else best) rest'
  end.

Definition value_min (frames : list value) : result value :=
  match frames with
  | [] => Raises ValueError
  | x :: xs => min_from x xs
  end.

Definition value_max (frames : list value) : result value :=
  match frames with
  | [] => Raises ValueError
  | x :: xs => max_from x xs
  end.

(** The loop that finds the frame numbers of the enumerated files. *)
Fixpoint collect_frames (template : Template) (files : list string)
    (frames : list value) : result (list value) :=
  match files with
  | [] => Returns frames
  | file :: files' =>
      fields ← get_fields template file;
      let frame := default VNone (fields !! "SEQ") in
      collect_frames template files'
        (match frame with VNone => frames | _ => frames ++ [frame] end)
  end.

Definition find_sequence_range (tk : Toolkit) (path : string)
  : result (option (value * value)) :=
  template ←
    match template_from_path tk path return result (option Template) with
    | Raises TankError => Returns None
    | outcome => outcome
    end;
  match template with
  | None => range_of_ints <$> sequence_range_from_path glob path
  | Some template =>
      fields ← get_fields template path;
      match fields !! "SEQ" with
      | None => range_of_ints <$> sequence_range_from_path glob path
      | Some _ =>
          files ← paths_from_template tk template fields ["SEQ"; "eye"];
          frames ← collect_frames template files [];
          match frames with
          | [] => Returns None
          | _ =>
              lo ← value_min frames;
              hi ← value_max frames;
              Returns (Some (lo, hi))
          end
      end
  end.

End TemplateResolver.

(** ** Vocabulary of the statements

    The notions the properties are phrased with. They are defined on the
    text itself, by position, and not through the pattern matcher. *)

(** The longest suffix of [s] made of digits and hashes, and what comes
    before it. *)
Fixpoint frame_suffix (s : string) : string :=
  match s with
  | "" => ""
  | String _ s' => if all_chars is_frame_char s then s else frame_suffix s'
  end.

Fixpoint frame_prefix (s : string) : string :=
  match s with
  | "" => ""
  | String c s' =>
      if all_chars is_frame_char s then "" else String c (frame_prefix s')
  end.

(** The text [%0Nd] for a digit [N]. *)
Definition printf_token (d : ascii) : string :=
  String "%" (String "0" (String d (String "d" ""))).

Definition ends_with (P : ascii → bool) (s : string) : Prop :=
  ∃ c, last_char s = Some c ∧ P c = true.

(** The stem ends in a run of decimal digits. *)
Definition ends_in_digits (stem : string) : Prop := ends_with is_digit stem.

(** The stem ends in a frame token: a run of digits and hashes, or [%0Nd]. *)
Definition ends_in_frame_token (stem : string) : Prop :=
  ends_with is_frame_char stem ∨
  ∃ before d, is_digit d = true ∧ stem = before +:+ printf_token d.

(** The stem does not end in a digit or a hash (it may be empty). *)
Definition no_frame_end (prefix : string) : Prop :=
  ∀ c, last_char prefix = Some c → is_frame_char c = false.

(** The frame number a stem carries: its trailing run of digits and hashes
    is not empty, holds digits only, and is read in base 10. *)
Definition frame_number (stem : string) : option Z :=
  match frame_suffix stem with
  | "" => None
  | token => if all_chars is_digit token then int_digits 0 token else None
  end.

(** The glob pattern of a stem and an extension: the trailing frame token
    replaced by the wildcard. *)
Definition wildcard_pattern (stem ext : string) : string :=
  frame_prefix stem +:+ "*" +:+ ext.

(** The values a list of hook items publishes: for each item, in order, the
    value under ["sg_publish"] when the item has one and it is truthy. *)
Definition published (item : value) : option value :=
  match item with
  | VDict entries =>
      match dict_lookup entries "sg_publish" with
      | Some sg_data => if py_truthy sg_data then Some sg_data else None
      | None => None
      end
  | _ => None
  end.

Definition published_values (items : list value) : list value :=
  omap published items.

(** The six context tokens. *)
Definition context_tokens : list string :=
  ["{context.entity}"; "{context.step}"; "{context.project}";
   "{context.project.id}"; "{context.task}"; "{context.user}"].

Definition is_context_token (field : value) : Prop :=
  ∃ token, token ∈ context_tokens ∧ field = VStr token.

(** Filters in the documented format: a list whose items are either dicts
    with the keys ["filter_operator"] and ["filters"], the latter holding
    filters in the documented format again, or lists of fields. *)
Fixpoint documented_filter (filter : value) : bool :=
  match filter with
  | VDict entries =>
      bool_decide (is_Some (dict_lookup entries "filter_operator"))
      && dict_lookup_in "filters"
           (λ filters,
              match filters with
              | VList items => forallb documented_filter items
              | _ => false
              end)
           false entries
  | VList _ => true
  | _ => false
  end.

Definition documented_filters (filters : value) : bool :=
  match filters with
  | VList items => forallb documented_filter items
  | _ => false
  end.

(** A context whose project is a dict or [None], as the toolkit builds it. *)
Definition documented_context (ctx : Context) : bool :=
  match ctx_project ctx with
  | VNone | VDict _ => true
  | _ => false
  end.

(** The conditions under which the top-level resolver hands the path to the
    pattern resolver: no template is found for the path ([TankError], or
    [None]), or the fields of the template that is found lack ["SEQ"]. *)
Definition falls_back (tk : Toolkit) (path : string) : Prop :=
  template_from_path tk path = Raises TankError
  ∨ template_from_path tk path = Returns None
  ∨ ∃ template fields,
      template_from_path tk path = Returns (Some template)
      ∧ get_fields template path = Returns fields
      ∧ fields !! "SEQ" = None.

(** The frame number among the fields of an enumerated path, if it has
    one. *)
Definition seq_value (fields : gmap string value) : option value :=
  match fields !! "SEQ" with
  | None | Some VNone => None
  | Some frame => Some frame
  end.

(** The range of the template resolver, from the enumerated siblings alone:
    the paths of the template with the same fields except ["SEQ"] and
    ["eye"], the frame numbers among their fields, absence when there is
    none and else the least and the greatest. *)
Definition template_range (value_lt : value → value → result bool)
    (tk : Toolkit) (template : Template) (fields : gmap string value)
  : result (option (value * value)) :=
  files ← paths_from_template tk template fields ["SEQ"; "eye"];
  sibling_fields ← mapM (get_fields template) files;
  match omap seq_value sibling_fields with
  | [] => Returns None
  | frames =>
      lo ← value_min value_lt frames;
      hi ← value_max value_lt frames;
      Returns (Some (lo, hi))
  end.

(** ** Scenarios

    Collaborators for the worked cases: the order of the integers, a
    template whose paths are [name.<frame>.exr], and toolkits around it. *)

Definition int_lt (a b : value) : result bool :=
  match a, b with
  | VInt x, VInt y => Returns (x <? y)%Z
  | _, _ => Raises TypeError
  end.

Definition frame_template : Template :=
  {| get_fields := λ path,
       match frame_number (fst (splitext path)) with
       | Some z => Returns {[ "SEQ" := VInt z ]}
       | None => Raises TankError
       end |}.

(** A template that knows the path but has no sequence key. *)
Definition plain_template : Template :=
  {| get_fields := λ path, Returns {[ "name" := VStr path ]} |}.

(** A toolkit without any template. *)
Definition tk_no_template : Toolkit :=
  {| template_from_path := λ _, Raises TankError;
     paths_from_template := λ _ _ _, Returns [] |}.

(** A toolkit that classifies every path under [template] and enumerates
    [siblings] for it. *)
Definition tk_with (template : Template) (siblings : list string) : Toolkit :=
  {| template_from_path := λ _, Returns (Some template);
     paths_from_template := λ _ _ _, Returns siblings |}.

(** What the hook invocation of [filter_publishes] comes to: the items are
    wrapped and handed to the hook. *)
Definition hook_outcome (app : App) (sg_data_list : value) : result value :=
  items ← py_iter sg_data_list;
  execute_hook app "filter_publishes_hook" (VList (wrap_publish <$> items)).

(** An app whose hook returns [v] whatever it is given. *)
Definition hook_returning (v : value) : App :=
  {| execute_hook := λ _ _, Returns v |}.

(** An app whose hook hands back what it is given. *)
Definition hook_identity : App :=
  {| execute_hook := λ _ publishes, Returns publishes |}.

(** The value that stands for [{context.project.id}]: the ["id"] of the
    project, [None] when there is no project or the project has no id. *)
Definition project_id (ctx : Context) : value :=
  match ctx_project ctx with
  | VDict entries => default VNone (dict_lookup entries "id")
  | _ => VNone
  end.

(** What each context token stands for. *)
Definition token_meaning (ctx : Context) : list (string * value) :=
  [("{context.entity}", ctx_entity ctx);
   ("{context.step}", ctx_step ctx);
   ("{context.project}", ctx_project ctx);
   ("{context.project.id}", project_id ctx);
   ("{context.task}", ctx_task ctx);
   ("{context.user}", ctx_user ctx)].

(** A context none of whose values is itself a context token. *)
Definition token_free_context (ctx : Context) : Prop :=
  ∀ token v, (token, v) ∈ token_meaning ctx → ¬ is_context_token v.

(** A filter that cannot be resolved: it is not iterable, or it is a dict
    without one of the two keys. *)
Definition malformed_filter (filter : value) : Prop :=
  match filter with
  | VNone | VBool _ | VInt _ => True
  | VDict entries =>
      dict_lookup entries "filter_operator" = None
      ∨ dict_lookup entries "filters" = None
  | _ => False
  end.

(** A context of a user at work on a project. *)
Definition artist_context : Context :=
  {| ctx_entity := VDict [("type", VStr "Shot"); ("id", VInt 12)];
     ctx_step := VNone;
     ctx_project := VDict [("type", VStr "Project"); ("id", VInt 7)];
     ctx_task := VNone;
     ctx_user := VDict [("type", VStr "HumanUser"); ("id", VInt 86)] |}.

(** The base-10 value of a text of digits, most significant digit first
    (0 for a text that is not made of digits). *)
Definition decimal (digits : string) : Z :=
  default 0%Z (int_digits 0 digits).

(** ** The model on typical inputs *)

Example splitext_extension : splitext "/proj/shot/file.0001.jpg" = ("/proj/shot/file.0001", ".jpg").
Proof. vm_compute. reflexivity. Qed.

Example splitext_dot_in_directory : splitext "a/b.c/d" = ("a/b.c/d", "").
Proof. vm_compute. reflexivity. Qed.

Example splitext_leading_dots : splitext "..x.y" = ("..x", ".y") ∧ splitext ".bashrc" = (".bashrc", "").
Proof. split; vm_compute; reflexivity. Qed.

Example search_digits : re_search "file.0001" = Some {| m_start := 5; m_group := "0001" |}.
Proof. vm_compute. reflexivity. Qed.

Example search_hashes : re_search "file.####" = Some {| m_start := 5; m_group := "####" |}.
Proof. vm_compute. reflexivity. Qed.

Example search_printf : re_search "file.%04d" = Some {| m_start := 5; m_group := "%04d" |}.
Proof. vm_compute. reflexivity. Qed.

Example search_wide_printf : re_search "file.%010d" = None.
Proof. vm_compute. reflexivity. Qed.

Example search_no_token : re_search "notes" = None.
Proof. vm_compute. reflexivity. Qed.

Example sub_digits : re_sub "v2/file_007" = "v2/file_*".
Proof. vm_compute. reflexivity. Qed.

Example int_token : py_int "0007" = Returns 7%Z ∧ py_int "####" = Raises ValueError ∧ py_int "%04d" = Raises ValueError.
Proof. repeat split; vm_compute; reflexivity. Qed.

Example no_range_for_notes glob : sequence_range_from_path glob "notes.txt" = Returns None.
Proof. vm_compute. reflexivity. Qed.

Example glob_skips_hidden : Disk.glob [".shot_1.exr"; "shot_2.exr"] "*.exr" = ["shot_2.exr"].
Proof. vm_compute. reflexivity. Qed.

(** * Properties *)

(** ** The result monad *)

Lemma mapM_Returns {A B} (f : A → result B) (l : list A) (k : list B) :
  Forall2 (λ x y, f x = Returns y) l k → mapM f l = Returns k.
Proof.
  induction 1 as [|x y l k Hxy _ IH]; [done|].
  cbn. rewrite Hxy. cbn. rewrite IH. done.
Qed.

Lemma mapM_Returns_inv {A B} (f : A → result B) (l : list A) (k : list B) :
  mapM f l = Returns k → Forall2 (λ x y, f x = Returns y) l k.
Proof.
  revert k. induction l as [|x l IH]; intros k; cbn.
  - intros [= <-]. constructor.
  - destruct (f x) as [y|e] eqn:Hx; cbn; [|done].
    destruct (mapM f l) as [k'|e] eqn:Hl; cbn; [|done].
    intros [= <-]. constructor; auto.
Qed.

Lemma mapM_Raises {A B} (f : A → result B) (l : list A) (x : A) :
  x ∈ l → is_raised (f x) → is_raised (mapM f l).
Proof.
  intros Hin [e He]. induction l as [|y l IH]; [by apply elem_of_nil in Hin|].
  cbn. apply elem_of_cons in Hin as [->|Hin].
  - rewrite He. by exists e.
  - destruct (f y) as [b|e']; cbn; [|by exists e'].
    destruct (IH Hin) as [e'' ->]. by exists e''.
Qed.

(** ** Characters *)

Lemma is_digit_frame_char c : is_digit c = true → is_frame_char c = true.
Proof. unfold is_frame_char. by intros ->. Qed.

Lemma frame_char_not_LF c : is_frame_char c = true → c ≠ LF.
Proof. by intros H ->. Qed.

Lemma app_cons c s t : String c s +:+ t = String c (s +:+ t).
Proof. reflexivity. Qed.

Lemma app_empty_l t : "" +:+ t = t.
Proof. reflexivity. Qed.

Lemma all_chars_app P s t :
  all_chars P (s +:+ t) = all_chars P s && all_chars P t.
Proof.
  induction s as [|c s IH]; [done|].
  rewrite app_cons. cbn. by rewrite IH, andb_assoc.
Qed.

Lemma all_chars_impl (P Q : ascii → bool) s :
  (∀ c, P c = true → Q c = true) → all_chars P s = true → all_chars Q s = true.
Proof.
  intros HPQ. induction s as [|c s IH]; cbn; [done|].
  intros [Hc Hs]%andb_true_iff. by rewrite (HPQ _ Hc), IH.
Qed.

Lemma last_char_cons c s :
  last_char (String c s) = match s with "" => Some c | _ => last_char s end.
Proof. by destruct s. Qed.

Lemma last_char_app s t : t ≠ "" → last_char (s +:+ t) = last_char t.
Proof.
  intros Ht. induction s as [|c s IH]; [done|].
  rewrite app_cons, last_char_cons, IH.
  destruct (s +:+ t) eqn:E; [|done]. by destruct s, t.
Qed.

Lemma all_chars_last P s c :
  all_chars P s = true → last_char s = Some c → P c = true.
Proof.
  induction s as [|a s IH]; [done|].
  rewrite last_char_cons. cbn. intros [Ha Hs]%andb_true_iff.
  destruct s; [by intros [= <-]|]. by apply IH.
Qed.

Lemma last_char_not_all P s c :
  last_char s = Some c → P c = false → all_chars P s = false.
Proof.
  intros Hl Hc. destruct (all_chars P s) eqn:E; [|done].
  by rewrite (all_chars_last _ _ _ E Hl) in Hc.
Qed.

(** ** The frame pattern *)

Lemma at_dollar_false s c :
  last_char s = Some c → c ≠ LF → at_dollar s = false.
Proof.
  destruct s as [|a [|b s]]; cbn; [done| |done].
  intros [= ->] Hc. by apply Ascii.eqb_neq.
Qed.

(** A text of digits and hashes is matched whole by the first alternative. *)
Lemma match_run_all s :
  s ≠ "" → all_chars is_frame_char s = true → match_run s = Some s.
Proof.
  induction s as [|c s IH]; [done|]. intros _. cbn.
  intros [-> Hs]%andb_true_iff.
  destruct s as [|a s]; [done|]. by rewrite IH.
Qed.

(** The first alternative fails on a text that holds another character and
    does not end in a newline. *)
Lemma match_run_none s c :
  all_chars is_frame_char s = false → last_char s = Some c → c ≠ LF →
  match_run s = None.
Proof.
  intros Hall Hl Hc. induction s as [|a s IH]; [done|].
  rewrite last_char_cons in Hl. cbn [match_run all_chars] in Hall |- *.
  destruct (is_frame_char a); [|done]. cbn in Hall.
  destruct s as [|b s]; [done|].
  rewrite IH by done. by rewrite (at_dollar_false _ c).
Qed.

(** The second alternative fails on a text that ends in a digit or hash. *)
Lemma match_printf_none s c :
  last_char s = Some c → is_frame_char c = true → match_printf s = None.
Proof.
  intros Hl Hc. unfold match_printf.
  destruct s as [|a [|b [|d [|e rest]]]]; try done.
  destruct (_ && at_dollar rest) eqn:E; [|done].
  apply andb_true_iff in E as [E Hrest].
  apply andb_true_iff in E as [_ ->%Ascii.eqb_eq].
  destruct rest as [|x [|y rest]]; cbn in *; [by simplify_eq| |done].
  apply Ascii.eqb_eq in Hrest as ->. by simplify_eq.
Qed.

Lemma re_sub_from_all s : re_sub_from (String.length s) s = "".
Proof. induction s; cbn; auto. Qed.

(** On a text that ends in a digit or hash, the leftmost match is the whole
    trailing run, and the substitution writes the wildcard in its place. *)
Lemma frame_end_search s c :
  last_char s = Some c → is_frame_char c = true →
  re_search s = Some {| m_start := String.length (frame_prefix s);
                        m_group := frame_suffix s |}
  ∧ re_sub s = frame_prefix s +:+ "*".
Proof.
  intros Hl Hc. induction s as [|a s IH]; [done|].
  unfold re_sub in *.
  cbn [re_search re_sub_from frame_prefix frame_suffix].
  destruct (all_chars is_frame_char (String a s)) eqn:Hall.
  - unfold match_at. rewrite match_run_all by done.
    cbn. by rewrite re_sub_from_all.
  - unfold match_at.
    rewrite (match_run_none _ c), (match_printf_none _ c)
      by eauto using frame_char_not_LF.
    rewrite last_char_cons in Hl. destruct s as [|b s].
    { simplify_eq. cbn in Hall. by rewrite Hc in Hall. }
    destruct (IH Hl) as [-> ->]. done.
Qed.

Lemma length_app s t :
  String.length (s +:+ t) = (String.length s + String.length t)%nat.
Proof. induction s as [|c s IH]; [done|]. rewrite app_cons. cbn. by rewrite IH. Qed.

Lemma last_char_is_Some s : s ≠ "" → ∃ c, last_char s = Some c.
Proof.
  induction s as [|a s IH]; [done|]. intros _. rewrite last_char_cons.
  destruct s; eauto.
Qed.

(** ** Trailing runs *)

Lemma frame_split s : s = frame_prefix s +:+ frame_suffix s.
Proof.
  induction s as [|c s IH]; [done|]. cbn.
  destruct (is_frame_char c && all_chars is_frame_char s); [done|].
  by rewrite app_cons, <- IH.
Qed.

Lemma frame_suffix_all s : all_chars is_frame_char (frame_suffix s) = true.
Proof.
  induction s as [|c s IH]; [done|]. cbn [frame_suffix].
  by destruct (all_chars is_frame_char (String c s)) eqn:E.
Qed.

Lemma frame_suffix_last s :
  frame_suffix s ≠ "" → last_char s = last_char (frame_suffix s).
Proof.
  induction s as [|c s IH]; [done|]. cbn [frame_suffix].
  destruct (all_chars is_frame_char (String c s)); [done|].
  intros Hne. rewrite last_char_cons. destruct s; [done|]. by apply IH.
Qed.

Lemma frame_split_app prefix run :
  no_frame_end prefix → run ≠ "" → all_chars is_frame_char run = true →
  frame_prefix (prefix +:+ run) = prefix ∧ frame_suffix (prefix +:+ run) = run.
Proof.
  intros Hp Hr Hall. induction prefix as [|c p IH].
  - rewrite app_empty_l. destruct run; [done|].
    cbn [frame_prefix frame_suffix]. by rewrite Hall.
  - rewrite app_cons. cbn [frame_prefix frame_suffix].
    destruct (last_char_is_Some (String c p)) as [x Hx]; [done|].
    rewrite <- app_cons, all_chars_app.
    rewrite (last_char_not_all _ _ x Hx (Hp _ Hx)). cbn [andb].
    destruct IH as [-> ->]; [|done].
    intros y Hy. apply Hp. rewrite last_char_cons. by destruct p.
Qed.

(** ** The printf token *)

Lemma match_at_printf_token d :
  is_digit d = true → match_at (printf_token d) = Some (printf_token d).
Proof. intros Hd. unfold match_at, printf_token. cbn. by rewrite Hd. Qed.

Lemma match_printf_Some s g :
  match_printf s = Some g →
  ∃ rest, s = g +:+ rest ∧ String.length g = 4%nat ∧ at_dollar rest = true.
Proof.
  unfold match_printf. destruct s as [|a [|b [|d [|e rest]]]]; try done.
  destruct (_ && at_dollar rest) eqn:E; [|done]. intros [= <-].
  apply andb_true_iff in E as [_ E]. by exists rest.
Qed.

Lemma at_dollar_inv rest :
  at_dollar rest = true → rest = "" ∨ rest = String LF "".
Proof.
  destruct rest as [|c [|]]; cbn; [by left| |done].
  intros ->%Ascii.eqb_eq. by right.
Qed.

(** On a stem that ends in [%0Nd] the leftmost match is that token. *)
Lemma printf_end_search p d :
  is_digit d = true →
  re_search (p +:+ printf_token d)
    = Some {| m_start := String.length p; m_group := printf_token d |}
  ∧ re_sub (p +:+ printf_token d) = p +:+ "*".
Proof.
  intros Hd. unfold re_sub. induction p as [|c p IH].
  - rewrite app_empty_l. split.
    + unfold printf_token at 1. cbn [re_search].
      fold (printf_token d). by rewrite match_at_printf_token.
    + unfold printf_token at 1. cbn [re_sub_from].
      fold (printf_token d). by rewrite match_at_printf_token.
  - rewrite app_cons. cbn [re_search re_sub_from].
    assert (Hl : last_char (String c (p +:+ printf_token d)) = Some "d"%char).
    { rewrite <- app_cons. by rewrite last_char_app. }
    assert (match_at (String c (p +:+ printf_token d)) = None) as ->.
    { unfold match_at. rewrite (match_run_none _ "d") by
        (first [by apply (last_char_not_all _ _ "d"%char) | done]).
      destruct (match_printf _) as [g|] eqn:E; [|done].
      apply match_printf_Some in E as (rest & Hs & Hg & Hrest).
      apply (f_equal String.length) in Hs as Hlen.
      rewrite length_app, Hg in Hlen. cbn in Hlen. rewrite length_app in Hlen.
      cbn in Hlen.
      apply at_dollar_inv in Hrest as [->| ->]; cbn in Hlen; [lia|].
      rewrite Hs in Hl. by rewrite last_char_app in Hl. }
    destruct IH as [-> ->]. done.
Qed.

(** ** Frame numbers *)

Lemma frame_number_of_root stem z :
  frame_number stem = Some z → frame_of_root stem = Returns z.
Proof.
  unfold frame_number, frame_of_root.
  destruct (frame_suffix stem) as [|a t] eqn:E; [done|].
  destruct (all_chars is_digit (String a t)) eqn:Hd; [|done]. intros Hz.
  destruct (last_char_is_Some (String a t)) as [c Hc]; [done|].
  destruct (frame_end_search stem c) as [-> _].
  - rewrite frame_suffix_last; rewrite E; done.
  - apply is_digit_frame_char. eapply all_chars_last; eauto.
  - cbn [m_group]. rewrite E. unfold py_int. by rewrite Hz.
Qed.

Lemma int_digits_zeros k s :
  int_digits 0 (repeat_char "0" k +:+ s) = int_digits 0 s.
Proof. induction k as [|k IH]; [done|]. cbn [repeat_char]. by rewrite app_cons. Qed.

Lemma py_int_zeros k s : s ≠ "" → py_int (repeat_char "0" k +:+ s) = py_int s.
Proof.
  intros Hs. unfold py_int. rewrite int_digits_zeros.
  destruct s; [done|]. by destruct k.
Qed.

(** ** Minimum and maximum *)

Lemma foldl_min_spec x xs :
  foldl Z.min x xs ∈ x :: xs ∧ ∀ z, z ∈ x :: xs → (foldl Z.min x xs ≤ z)%Z.
Proof.
  revert x. induction xs as [|y xs IH]; intros x; cbn.
  - split; [by left|]. intros z ->%list_elem_of_singleton. lia.
  - destruct (IH (Z.min x y)) as [Hin Hle]. split.
    + apply elem_of_cons in Hin as [->|Hin].
      * destruct (Z.min_spec x y) as [[_ ->]|[_ ->]]; [left|right; left].
      * by do 2 right.
    + intros z Hz. assert (foldl Z.min (Z.min x y) xs ≤ Z.min x y)%Z by (apply Hle; left).
      apply elem_of_cons in Hz as [->|Hz]; [lia|].
      apply elem_of_cons in Hz as [->|Hz]; [lia|]. apply Hle. by right.
Qed.

Lemma foldl_max_spec x xs :
  foldl Z.max x xs ∈ x :: xs ∧ ∀ z, z ∈ x :: xs → (z ≤ foldl Z.max x xs)%Z.
Proof.
  revert x. induction xs as [|y xs IH]; intros x; cbn.
  - split; [by left|]. intros z ->%list_elem_of_singleton. lia.
  - destruct (IH (Z.max x y)) as [Hin Hle]. split.
    + apply elem_of_cons in Hin as [->|Hin].
      * destruct (Z.max_spec x y) as [[_ ->]|[_ ->]]; [right; left|left].
      * by do 2 right.
    + intros z Hz. assert (Z.max x y ≤ foldl Z.max (Z.max x y) xs)%Z by (apply Hle; left).
      apply elem_of_cons in Hz as [->|Hz]; [lia|].
      apply elem_of_cons in Hz as [->|Hz]; [lia|]. apply Hle. by right.
Qed.

(** ** [splitext] gives back the path *)

Lemma substring_all s : substring 0 (String.length s) s = s.
Proof. induction s as [|c s IH]; [done|]. cbn. by rewrite IH. Qed.

Lemma substring_split n s :
  substring 0 n s +:+ substring n (String.length s - n) s = s.
Proof.
  revert n. induction s as [|c s IH]; intros [|n]; cbn; try done.
  - by rewrite substring_all.
  - by rewrite app_cons, IH.
Qed.

Lemma splitext_app path root ext :
  splitext path = (root, ext) → path = root +:+ ext.
Proof.
  unfold splitext. destruct (_ && _); intros [= <- <-].
  - by rewrite substring_split.
  - induction path as [|c p IH]; [done|]. by rewrite app_cons, <- IH.
Qed.

Lemma str_app_assoc s t u : (s +:+ t) +:+ u = s +:+ (t +:+ u).
Proof. induction s as [|c s IH]; [done|]. by rewrite !app_cons, IH. Qed.

(** ** [sequence_range_from_path] *)

(** Once the stem has matched, the result is a function of the glob pattern
    alone. *)
Lemma sequence_range_matched glob path root ext :
  splitext path = (root, ext) → is_Some (re_search root) →
  sequence_range_from_path glob path =
    (frames ← mapM frame_of_root
                (map (λ f, fst (splitext f)) (glob (glob_path_of root ext)));
     lo ← py_min frames;
     hi ← py_max frames;
     Returns (Some (lo, hi))).
Proof.
  intros Hsplit [m Hm]. unfold sequence_range_from_path.
  by rewrite Hsplit, Hm.
Qed.

(** A stem that ends in a frame token matches the pattern. *)
Lemma frame_token_matches stem :
  ends_in_frame_token stem → is_Some (re_search stem).
Proof.
  intros [(c & Hl & Hc)|(before & d & Hd & ->)].
  - destruct (frame_end_search stem c Hl Hc) as [-> _]. eauto.
  - destruct (printf_end_search before d Hd) as [-> _]. eauto.
Qed.

Lemma digits_end_pattern root ext :
  ends_in_digits root →
  is_Some (re_search root) ∧ glob_path_of root ext = wildcard_pattern root ext.
Proof.
  intros (c & Hl & Hc%is_digit_frame_char).
  destruct (frame_end_search root c Hl Hc) as [Hs Hsub]. split; [eauto|].
  unfold glob_path_of, wildcard_pattern. by rewrite Hsub, str_app_assoc.
Qed.

(** C1, as amended. For every path whose stem ends in a run of decimal
    digits: when the glob pattern obtained by replacing the trailing frame
    token of the stem with a wildcard enumerates at least one file and every
    enumerated file carries a decimal frame number at the end of its stem,
    [sequence_range_from_path] returns the least and the greatest of these
    frame numbers. In particular, on a directory that holds shot_0010.exr,
    shot_0011.exr and shot_0015.exr, the call on shot_0011.exr returns
    (10, 15). *)
Theorem pattern_range_is_min_max :
  (∀ glob path root ext frames,
     splitext path = (root, ext) →
     ends_in_digits root →
     Forall2 (λ f z, frame_number (fst (splitext f)) = Some z)
             (glob (wildcard_pattern root ext)) frames →
     frames ≠ [] →
     ∃ lo hi,
       sequence_range_from_path glob path = Returns (Some (lo, hi))
       ∧ lo ∈ frames ∧ hi ∈ frames
       ∧ ∀ z, z ∈ frames → (lo ≤ z ≤ hi)%Z)
  ∧ sequence_range_from_path
      (Disk.glob ["shot_0010.exr"; "shot_0011.exr"; "shot_0015.exr"])
      "shot_0011.exr"
    = Returns (Some (10, 15)%Z).
Proof.
  split; [|vm_compute; reflexivity].
  intros glob path root ext frames Hsplit Hdigits Hframes Hne.
  destruct (digits_end_pattern root ext Hdigits) as [Hm Hpat].
  rewrite (sequence_range_matched _ _ _ _ Hsplit Hm), Hpat.
  rewrite (mapM_Returns _ _ frames).
  2:{ apply Forall2_fmap_l. eapply Forall2_impl; [exact Hframes|].
      intros f z. apply frame_number_of_root. }
  destruct frames as [|x xs]; [done|]. cbn.
  destruct (foldl_min_spec x xs) as [Hlo1 Hlo2].
  destruct (foldl_max_spec x xs) as [Hhi1 Hhi2].
  eexists _, _. split; [done|]. repeat split; auto.
Qed.

Lemma pattern_range_witness :
  ∃ lo hi,
    sequence_range_from_path
      (Disk.glob ["shot_0010.exr"; "shot_0011.exr"; "shot_0015.exr"])
      "shot_0011.exr"
    = Returns (Some (lo, hi))
    ∧ lo ∈ [10; 11; 15]%Z ∧ hi ∈ [10; 11; 15]%Z
    ∧ ∀ z, z ∈ [10; 11; 15]%Z → (lo ≤ z ≤ hi)%Z.
Proof.
  apply (proj1 pattern_range_is_min_max _ _ "shot_0011" ".exr").
  - vm_compute. reflexivity.
  - exists "1"%char. split; vm_compute; reflexivity.
  - replace (Disk.glob _ _)
      with ["shot_0010.exr"; "shot_0011.exr"; "shot_0015.exr"]
      by (vm_compute; reflexivity).
    repeat (constructor; [vm_compute; reflexivity|]). constructor.
  - discriminate.
Defined.

(** C1 as stated fails: the stem of shot_0011.exr ends in digits, yet on a
    directory that also holds shot_final.exr the call raises, and on a
    directory without any matching file it raises as well. *)
Lemma pattern_range_counterexample :
  ends_in_digits (fst (splitext "shot_0011.exr"))
  ∧ sequence_range_from_path
      (Disk.glob ["shot_0010.exr"; "shot_0011.exr"; "shot_final.exr"])
      "shot_0011.exr"
    = Raises AttributeError
  ∧ sequence_range_from_path (Disk.glob []) "shot_0011.exr"
    = Raises ValueError.
Proof.
  split; [|split; vm_compute; reflexivity].
  exists "1"%char. split; vm_compute; reflexivity.
Qed.

Lemma match_printf_token s g :
  match_printf s = Some g → ∃ d, is_digit d = true ∧ g = printf_token d.
Proof.
  unfold match_printf. destruct s as [|a [|b [|d [|e rest]]]]; try done.
  destruct (_ && at_dollar rest) eqn:E; [|done]. intros [= <-].
  repeat (apply andb_true_iff in E as [E ?]).
  repeat match goal with H : Ascii.eqb _ _ = true |- _ =>
    apply Ascii.eqb_eq in H; subst end.
  by exists d.
Qed.

(** Away from a final newline the pattern finds nothing unless the text
    ends in a frame token. *)
Lemma no_frame_token_no_match before t :
  ¬ ends_in_frame_token (before +:+ t) →
  last_char (before +:+ t) ≠ Some LF →
  re_search t = None.
Proof.
  revert before. induction t as [|a t IH]; intros before Htok Hlf; [done|].
  assert (Hlast : last_char (String a t) = last_char (before +:+ String a t))
    by by rewrite last_char_app.
  destruct (last_char_is_Some (String a t)) as [c Hc]; [done|].
  cbn [re_search].
  assert (match_at (String a t) = None) as ->.
  { unfold match_at. rewrite (match_run_none _ c); [| |done|congruence].
    - destruct (match_printf _) as [g|] eqn:E; [|done]. exfalso.
      destruct (match_printf_token _ _ E) as (d & Hd & ->).
      apply match_printf_Some in E as (rest & Hs & _ & Hrest).
      apply at_dollar_inv in Hrest as [->| ->].
      + apply Htok. right. exists before, d. split; [done|].
        by rewrite Hs.
      + apply Hlf. rewrite <- Hlast, Hs. by rewrite last_char_app.
    - destruct (all_chars is_frame_char (String a t)) eqn:Hall; [|done].
      exfalso. apply Htok. left. exists c. split; [congruence|].
      by apply (all_chars_last _ _ _ Hall). }
  rewrite (IH (before +:+ String a "")); [done| |];
    by rewrite str_app_assoc.
Qed.

(** The part of C4 that holds: a stem that neither ends in a frame token nor
    in a newline yields [None] whatever the disk holds. *)
Lemma no_frame_token_no_range glob path root ext :
  splitext path = (root, ext) →
  ¬ ends_in_frame_token root → last_char root ≠ Some LF →
  sequence_range_from_path glob path = Returns None.
Proof.
  intros Hsplit Htok Hlf. unfold sequence_range_from_path.
  rewrite Hsplit. by rewrite (no_frame_token_no_match "" root).
Qed.

(** C4, at the input where it fails. The stem "frame1" followed by a
    newline does not end in a frame token, yet the pattern matches the digit
    before the final newline: the function goes to the disk and returns a
    range, or raises when the disk has no match, and does not return
    [None]. *)
Theorem trailing_newline_is_matched :
  let path := "frame1" +:+ String LF "" in
  ¬ ends_in_frame_token (fst (splitext path))
  ∧ re_search (fst (splitext path)) = Some {| m_start := 5; m_group := "1" |}
  ∧ glob_path_of (fst (splitext path)) (snd (splitext path))
    = "frame*" +:+ String LF ""
  ∧ sequence_range_from_path (Disk.glob ["frame7" +:+ String LF ""]) path
    = Returns (Some (7, 7)%Z)
  ∧ sequence_range_from_path (Disk.glob []) path = Raises ValueError.
Proof.
  split; [|repeat split; vm_compute; reflexivity].
  intros [(c & Hl & Hc)|(before & d & _ & Hs)].
  - vm_compute in Hl. by simplify_eq.
  - apply (f_equal last_char) in Hs. rewrite last_char_app in Hs by done.
    by vm_compute in Hs.
Qed.

Lemma int_digits_snoc acc s c :
  int_digits acc (s +:+ String c "") =
    (v ← int_digits acc s; d ← digit_value c; Some (10 * v + d)%Z).
Proof.
  revert acc. induction s as [|a s IH]; intros acc.
  - rewrite app_empty_l. cbn. by destruct (digit_value c).
  - rewrite app_cons. cbn. destruct (digit_value a); [|done]. apply IH.
Qed.

Lemma all_chars_repeat (P : ascii → bool) c n :
  P c = true → all_chars P (repeat_char c n) = true.
Proof. intros Hc. induction n as [|n IH]; [done|]. cbn. by rewrite Hc, IH. Qed.

Lemma all_digits_int acc s :
  all_chars is_digit s = true → is_Some (int_digits acc s).
Proof.
  revert acc. induction s as [|c s IH]; intros acc; cbn; [eauto|].
  unfold is_digit. destruct (digit_value c); [|done]. cbn. apply IH.
Qed.

Lemma py_int_digits digits :
  digits ≠ "" → all_chars is_digit digits = true →
  py_int digits = Returns (decimal digits).
Proof.
  intros Hne Hd. unfold py_int, decimal.
  destruct (all_digits_int 0 digits Hd) as [v ->]. by destruct digits.
Qed.

(** A stem whose frame number is written with leading zeros carries the
    value of the digits after the zeros. *)
Lemma padded_frame_number before k digits :
  no_frame_end before → digits ≠ "" → all_chars is_digit digits = true →
  frame_number (before +:+ repeat_char "0" k +:+ digits)
  = Some (decimal digits).
Proof.
  intros Hb Hne Hd. unfold frame_number.
  assert (Hv : int_digits 0 (repeat_char "0" k +:+ digits)
               = Some (decimal digits)).
  { rewrite int_digits_zeros. unfold decimal.
    by destruct (all_digits_int 0 digits Hd) as [v ->]. }
  assert (Hz : all_chars is_digit (repeat_char "0" k +:+ digits) = true).
  { by rewrite all_chars_app, all_chars_repeat, Hd. }
  assert (Ht : repeat_char "0" k +:+ digits ≠ "") by by destruct k, digits.
  destruct (frame_split_app before (repeat_char "0" k +:+ digits))
    as [_ ->]; [done|done|
                by eapply all_chars_impl, Hz; apply is_digit_frame_char|].
  destruct (repeat_char "0" k +:+ digits); [done|]. by rewrite Hz.
Qed.

(** C5. Frame numbers are exact base-10 integers and leading zeros do not
    count, neither in the value nor in the comparison. [int] on a text of
    digits is its positional base-10 value, and the same with any number of
    zeros in front. For every disk: when the stem of the path ends in
    digits and every enumerated file has a stem that ends in digits after
    any number of zeros, the result is the least and the greatest of the
    values of these digits, whatever the widths and the order of the
    listing. In particular, on a directory that holds file_007.jpg and
    file_12.jpg, listed in either order, the call on either path returns
    (7, 12). *)
Theorem leading_zeros_insignificant :
  (∀ digits c d,
     all_chars is_digit digits = true → digit_value c = Some d →
     py_int (digits +:+ String c "") = Returns (10 * decimal digits + d)%Z)
  ∧ (∀ k digits,
       digits ≠ "" → all_chars is_digit digits = true →
       py_int (repeat_char "0" k +:+ digits) = Returns (decimal digits))
  ∧ (∀ glob path root ext (entries : list (nat * string)),
       splitext path = (root, ext) →
       ends_in_digits root →
       Forall2 (λ f entry, ∃ before,
                  fst (splitext f)
                  = before +:+ repeat_char "0" entry.1 +:+ entry.2
                  ∧ no_frame_end before
                  ∧ entry.2 ≠ ""
                  ∧ all_chars is_digit entry.2 = true)
               (glob (wildcard_pattern root ext)) entries →
       entries ≠ [] →
       ∃ lo hi,
         sequence_range_from_path glob path = Returns (Some (lo, hi))
         ∧ lo ∈ (λ entry, decimal entry.2) <$> entries
         ∧ hi ∈ (λ entry, decimal entry.2) <$> entries
         ∧ ∀ z, z ∈ (λ entry, decimal entry.2) <$> entries →
                (lo ≤ z ≤ hi)%Z)
  ∧ (∀ glob,
       glob "file_*.jpg" ≡ₚ ["file_007.jpg"; "file_12.jpg"] →
       sequence_range_from_path glob "file_007.jpg"
       = Returns (Some (7, 12)%Z)
       ∧ sequence_range_from_path glob "file_12.jpg"
         = Returns (Some (7, 12)%Z)).
Proof.
  split; [|split; [|split]].
  - intros digits c d Hd Hc. unfold py_int, decimal.
    rewrite int_digits_snoc.
    destruct (all_digits_int 0 digits Hd) as [v ->]. cbn. rewrite Hc. cbn.
    by destruct digits.
  - intros k digits Hne Hd. rewrite py_int_zeros by done.
    by apply py_int_digits.
  - intros glob path root ext entries Hsplit Hdigits Hhits Hne.
    destruct (digits_end_pattern root ext Hdigits) as [Hm Hpat].
    rewrite (sequence_range_matched _ _ _ _ Hsplit Hm), Hpat.
    rewrite (mapM_Returns _ _ ((λ entry, decimal entry.2) <$> entries)).
    2:{ apply Forall2_fmap. eapply Forall2_impl; [exact Hhits|].
        intros f [k digits] (before & Hstem & Hb & Hn & Hd). cbn in *.
        rewrite Hstem. by apply frame_number_of_root, padded_frame_number. }
    destruct entries as [|e entries]; [done|]. cbn.
    destruct (foldl_min_spec (decimal e.2)
                ((λ entry, decimal entry.2) <$> entries)) as [Hlo1 Hlo2].
    destruct (foldl_max_spec (decimal e.2)
                ((λ entry, decimal entry.2) <$> entries)) as [Hhi1 Hhi2].
    eexists _, _. split; [done|]. repeat split; auto.
  - intros glob Hperm.
    assert (Hcases : glob "file_*.jpg" = ["file_007.jpg"; "file_12.jpg"]
                     ∨ glob "file_*.jpg" = ["file_12.jpg"; "file_007.jpg"]).
    { symmetry in Hperm. by apply Permutation_length_2_inv in Hperm. }
    split.
    + rewrite (sequence_range_matched _ _ "file_007" ".jpg");
        [|by vm_compute|by vm_compute; eauto].
      replace (glob_path_of "file_007" ".jpg") with "file_*.jpg"
        by (vm_compute; reflexivity).
      destruct Hcases as [-> | ->]; vm_compute; reflexivity.
    + rewrite (sequence_range_matched _ _ "file_12" ".jpg");
        [|by vm_compute|by vm_compute; eauto].
      replace (glob_path_of "file_12" ".jpg") with "file_*.jpg"
        by (vm_compute; reflexivity).
      destruct Hcases as [-> | ->]; vm_compute; reflexivity.
Qed.

Lemma leading_zeros_witness :
  py_int ("000" +:+ "7") = Returns 7%Z
  ∧ sequence_range_from_path (λ _, ["file_12.jpg"; "file_007.jpg"])
      "file_007.jpg"
    = Returns (Some (7, 12)%Z)
  ∧ sequence_range_from_path (λ _, ["file_12.jpg"; "file_007.jpg"])
      "file_12.jpg"
    = Returns (Some (7, 12)%Z).
Proof.
  split.
  - apply (proj1 (proj2 leading_zeros_insignificant) 3%nat "7").
    + discriminate.
    + vm_compute. reflexivity.
  - apply (proj2 (proj2 (proj2 leading_zeros_insignificant))
             (λ _, ["file_12.jpg"; "file_007.jpg"])).
    apply Permutation_swap.
Defined.

Lemma run_end_pattern prefix run ext :
  no_frame_end prefix → run ≠ "" → all_chars is_frame_char run = true →
  is_Some (re_search (prefix +:+ run))
  ∧ glob_path_of (prefix +:+ run) ext = prefix +:+ "*" +:+ ext.
Proof.
  intros Hp Hr Hall.
  destruct (last_char_is_Some run) as [c Hc]; [done|].
  destruct (frame_end_search (prefix +:+ run) c) as [Hs Hsub].
  { by rewrite last_char_app. }
  { by apply (all_chars_last _ _ _ Hall). }
  split; [eauto|]. unfold glob_path_of. rewrite Hsub.
  destruct (frame_split_app prefix run) as [-> _]; [done..|].
  by rewrite str_app_assoc.
Qed.

(** C6, as amended. For a stem prefix that does not end in a digit or a
    hash, a stem that ends in [%0Nd] (N one digit), a stem that ends in a
    run of hashes and a stem that ends in a run of digits give the same glob
    pattern, the prefix followed by the wildcard and the extension, and so
    the same result on the same disk. *)
Theorem frame_tokens_share_pattern
    glob prefix d n digits ext p_printf p_hashes p_digits :
  no_frame_end prefix →
  is_digit d = true → (0 < n)%nat →
  digits ≠ "" → all_chars is_digit digits = true →
  splitext p_printf = (prefix +:+ printf_token d, ext) →
  splitext p_hashes = (prefix +:+ repeat_char "#" n, ext) →
  splitext p_digits = (prefix +:+ digits, ext) →
  glob_path_of (prefix +:+ printf_token d) ext = prefix +:+ "*" +:+ ext
  ∧ glob_path_of (prefix +:+ repeat_char "#" n) ext = prefix +:+ "*" +:+ ext
  ∧ glob_path_of (prefix +:+ digits) ext = prefix +:+ "*" +:+ ext
  ∧ sequence_range_from_path glob p_printf
    = sequence_range_from_path glob p_digits
  ∧ sequence_range_from_path glob p_hashes
    = sequence_range_from_path glob p_digits.
Proof.
  intros Hp Hd Hn Hne Hdigits H1 H2 H3.
  destruct (printf_end_search prefix d Hd) as [Hs1 Hsub1].
  assert (Hg1 : glob_path_of (prefix +:+ printf_token d) ext
                = prefix +:+ "*" +:+ ext).
  { unfold glob_path_of. by rewrite Hsub1, str_app_assoc. }
  destruct (run_end_pattern prefix (repeat_char "#" n) ext) as [Hs2 Hg2];
    [done|by destruct n; [lia|]|by apply all_chars_repeat|].
  destruct (run_end_pattern prefix digits ext) as [Hs3 Hg3];
    [done|done|by eapply all_chars_impl, Hdigits; apply is_digit_frame_char|].
  repeat split; try done.
  - rewrite (sequence_range_matched _ _ _ _ H1), (sequence_range_matched _ _ _ _ H3);
      [|done|by rewrite Hs1]. by rewrite Hg1, Hg3.
  - rewrite (sequence_range_matched _ _ _ _ H2), (sequence_range_matched _ _ _ _ H3);
      [|done|done]. by rewrite Hg2, Hg3.
Qed.

Lemma frame_tokens_witness :
  let glob := Disk.glob ["shot_0010.exr"; "shot_0011.exr"; "shot_0015.exr"] in
  glob_path_of "shot_%04d" ".exr" = "shot_*.exr"
  ∧ glob_path_of "shot_####" ".exr" = "shot_*.exr"
  ∧ glob_path_of "shot_0011" ".exr" = "shot_*.exr"
  ∧ sequence_range_from_path glob "shot_%04d.exr"
    = sequence_range_from_path glob "shot_0011.exr"
  ∧ sequence_range_from_path glob "shot_####.exr"
    = sequence_range_from_path glob "shot_0011.exr".
Proof.
  apply (frame_tokens_share_pattern _ "shot_" "4"%char 4 "0011" ".exr");
    try (vm_compute; reflexivity).
  - intros c [= <-]. reflexivity.
  - lia.
  - discriminate.
Defined.

(** C6 as stated fails for a prefix that ends in a digit: the run of hashes
    and the run of digits absorb it, the printf token does not, so the glob
    patterns differ and so do the ranges on one and the same disk. *)
Lemma frame_tokens_counterexample :
  let glob := Disk.glob ["take20001.exr"; "take30001.exr"] in
  splitext "take2%04d.exr" = ("take2" +:+ printf_token "4", ".exr")
  ∧ splitext "take2####.exr" = ("take2" +:+ repeat_char "#" 4, ".exr")
  ∧ splitext "take20001.exr" = ("take2" +:+ "0001", ".exr")
  ∧ glob_path_of ("take2" +:+ printf_token "4") ".exr" = "take2*.exr"
  ∧ glob_path_of ("take2" +:+ repeat_char "#" 4) ".exr" = "take*.exr"
  ∧ glob_path_of ("take2" +:+ "0001") ".exr" = "take*.exr"
  ∧ sequence_range_from_path glob "take2%04d.exr"
    = Returns (Some (20001, 20001)%Z)
  ∧ sequence_range_from_path glob "take2####.exr"
    = Returns (Some (20001, 30001)%Z)
  ∧ sequence_range_from_path glob "take20001.exr"
    = Returns (Some (20001, 30001)%Z).
Proof. repeat split; vm_compute; reflexivity. Qed.

(** C7. When the stem of the path matches the frame pattern and some file
    that the glob enumerates has a stem from which no integer frame number
    comes out (the pattern does not match it, or what it matches is not a
    number), the call raises: the file is not skipped. *)
Theorem sibling_without_frame_raises glob path root ext f :
  splitext path = (root, ext) →
  is_Some (re_search root) →
  f ∈ glob (glob_path_of root ext) →
  is_raised (frame_of_root (fst (splitext f))) →
  is_raised (sequence_range_from_path glob path).
Proof.
  intros Hsplit Hm Hf Hraise.
  rewrite (sequence_range_matched _ _ _ _ Hsplit Hm).
  destruct (mapM_Raises frame_of_root
              (map (λ f, fst (splitext f)) (glob (glob_path_of root ext)))
              (fst (splitext f))) as [e ->]; [|done|by exists e].
  apply list_elem_of_fmap. by exists f.
Qed.

Lemma sibling_without_frame_witness :
  is_raised
    (sequence_range_from_path
       (Disk.glob ["shot_0010.exr"; "shot_0011.exr"; "shot_final.exr"])
       "shot_0011.exr").
Proof.
  apply (sibling_without_frame_raises _ _ "shot_0011" ".exr" "shot_final.exr").
  - vm_compute. reflexivity.
  - vm_compute. eauto.
  - vm_compute. do 2 right. left.
  - by exists AttributeError.
Defined.

(** C8. When the stem of the path matches the frame pattern and the glob
    enumerates no file, the call raises [ValueError], the error of [min] on
    an empty list; it returns neither [None] nor a range. *)
Theorem empty_glob_raises glob path root ext :
  splitext path = (root, ext) →
  is_Some (re_search root) →
  glob (glob_path_of root ext) = [] →
  sequence_range_from_path glob path = Raises ValueError.
Proof.
  intros Hsplit Hm Hempty.
  rewrite (sequence_range_matched _ _ _ _ Hsplit Hm). by rewrite Hempty.
Qed.

Lemma empty_glob_witness :
  sequence_range_from_path (Disk.glob []) "shot_0011.exr" = Raises ValueError.
Proof.
  apply (empty_glob_raises _ _ "shot_0011" ".exr").
  - vm_compute. reflexivity.
  - vm_compute. eauto.
  - reflexivity.
Defined.

(** ** [find_sequence_range] *)

Lemma collect_frames_spec template files frames :
  collect_frames template files frames =
    (sibling_fields ← mapM (get_fields template) files;
     Returns (frames ++ omap seq_value sibling_fields)%list).
Proof.
  revert frames. induction files as [|file files IH]; intros frames; cbn.
  - by rewrite app_nil_r.
  - destruct (get_fields template file) as [fields|e]; cbn; [|done].
    rewrite IH. destruct (mapM _ files) as [rest|e]; cbn; [|done].
    unfold seq_value at 2.
    destruct (fields !! "SEQ") as [[]|]; cbn; by rewrite <- ?app_assoc.
Qed.

Lemma template_range_spec glob value_lt tk path template fields :
  template_from_path tk path = Returns (Some template) →
  get_fields template path = Returns fields →
  is_Some (fields !! "SEQ") →
  find_sequence_range glob value_lt tk path
  = template_range value_lt tk template fields.
Proof.
  intros Ht Hf [v Hv]. unfold find_sequence_range, template_range.
  rewrite Ht. cbn. rewrite Hf. cbn. rewrite Hv.
  destruct (paths_from_template _ _ _ _) as [files|e]; cbn; [|done].
  rewrite collect_frames_spec.
  destruct (mapM _ files) as [sibling_fields|e]; cbn; [|done].
  by destruct (omap seq_value sibling_fields).
Qed.

(** C2. [find_sequence_range] returns the result of
    [sequence_range_from_path] when no template is found for the path or
    when the fields of the template lack ["SEQ"]; in every other case its
    result does not depend on what the glob finds, and when a template with
    a ["SEQ"] field is found it is the range of the frame numbers of the
    paths the template enumerates. *)
Theorem find_sequence_range_dispatch glob value_lt tk path :
  (falls_back tk path →
   find_sequence_range glob value_lt tk path
   = range_of_ints <$> sequence_range_from_path glob path)
  ∧ (¬ falls_back tk path →
     ∀ glob', find_sequence_range glob value_lt tk path
              = find_sequence_range glob' value_lt tk path)
  ∧ (∀ template fields,
       template_from_path tk path = Returns (Some template) →
       get_fields template path = Returns fields →
       is_Some (fields !! "SEQ") →
       find_sequence_range glob value_lt tk path
       = template_range value_lt tk template fields).
Proof.
  split; [|split].
  - intros [H|[H|(template & fields & Ht & Hf & Hseq)]];
      unfold find_sequence_range; rewrite H || rewrite Ht; cbn; [done..|].
    by rewrite Hf; cbn; rewrite Hseq.
  - intros Hno glob'. unfold falls_back in Hno.
    destruct (template_from_path tk path) as [[template|]|e] eqn:Ht.
    + destruct (get_fields template path) as [fields|e] eqn:Hf.
      * destruct (fields !! "SEQ") as [v|] eqn:Hseq.
        -- by rewrite !(template_range_spec _ _ _ _ _ _ Ht Hf).
        -- exfalso. apply Hno. do 2 right. by exists template, fields.
      * unfold find_sequence_range. rewrite Ht. cbn. by rewrite Hf.
    + exfalso. apply Hno. by right; left.
    + unfold find_sequence_range. rewrite Ht.
      destruct e; first [done | exfalso; apply Hno; by left].
  - intros template fields. apply template_range_spec.
Qed.

Lemma find_sequence_range_witness :
  let shots := ["shot_0010.exr"; "shot_0011.exr"; "shot_0015.exr"] in
  find_sequence_range (Disk.glob shots) int_lt tk_no_template "shot_0011.exr"
  = Returns (Some (VInt 10, VInt 15))
  ∧ find_sequence_range (Disk.glob shots) int_lt
      (tk_with plain_template []) "shot_0011.exr"
    = Returns (Some (VInt 10, VInt 15))
  ∧ find_sequence_range (Disk.glob shots) int_lt
      (tk_with frame_template ["shot_0003.exr"; "shot_0011.exr"])
      "shot_0011.exr"
    = Returns (Some (VInt 3, VInt 11)).
Proof.
  intros shots. split; [|split].
  - rewrite (proj1 (find_sequence_range_dispatch _ _ _ _)); [vm_compute; reflexivity|].
    by left.
  - rewrite (proj1 (find_sequence_range_dispatch _ _ _ _)); [vm_compute; reflexivity|].
    do 2 right. exists plain_template, {[ "name" := VStr "shot_0011.exr" ]}.
    repeat split; reflexivity.
  - rewrite (proj2 (proj2 (find_sequence_range_dispatch _ _ _ _))
               frame_template {[ "SEQ" := VInt 11 ]});
      [| reflexivity | reflexivity | by eexists].
    vm_compute. reflexivity.
Defined.

(** C3. When a template is found for the path, its fields include ["SEQ"]
    and the enumeration of the siblings yields no frame number (no path at
    all, or only paths whose fields hold no ["SEQ"] value), then
    [find_sequence_range] returns [None], whatever the disk holds: the
    pattern resolver is not consulted. *)
Theorem empty_enumeration_is_absent glob value_lt tk path template fields files :
  template_from_path tk path = Returns (Some template) →
  get_fields template path = Returns fields →
  is_Some (fields !! "SEQ") →
  paths_from_template tk template fields ["SEQ"; "eye"] = Returns files →
  Forall (λ file, ∃ file_fields,
            get_fields template file = Returns file_fields
            ∧ seq_value file_fields = None) files →
  find_sequence_range glob value_lt tk path = Returns None.
Proof.
  intros Ht Hf Hseq Hfiles Hnone.
  rewrite (template_range_spec _ _ _ _ _ _ Ht Hf Hseq).
  unfold template_range. rewrite Hfiles. cbn.
  assert (∃ sibling_fields,
            mapM (get_fields template) files = Returns sibling_fields
            ∧ omap seq_value sibling_fields = []) as (sf & -> & Hsf).
  { clear Hfiles. induction Hnone as [|file files (ff & Hff & Hv) _ IH].
    - by exists [].
    - destruct IH as (sf & Hsf & Hom). exists (ff :: sf). cbn.
      rewrite Hff. cbn. rewrite Hsf. cbn. by rewrite Hv. }
  cbn. by rewrite Hsf.
Qed.

Lemma empty_enumeration_witness :
  let shots := ["shot_0010.exr"; "shot_0011.exr"; "shot_0015.exr"] in
  sequence_range_from_path (Disk.glob shots) "shot_0011.exr"
  = Returns (Some (10, 15)%Z)
  ∧ find_sequence_range (Disk.glob shots) int_lt
      (tk_with frame_template []) "shot_0011.exr"
    = Returns None.
Proof.
  intros shots. split; [vm_compute; reflexivity|].
  apply (empty_enumeration_is_absent _ _ _ _ frame_template
           {[ "SEQ" := VInt 11 ]} []).
  - reflexivity.
  - reflexivity.
  - by eexists.
  - reflexivity.
  - constructor.
Defined.

(** ** [filter_publishes] *)

Lemma split_publishes_spec items acc :
  split_publishes items acc =
    if forallb is_dict items
    then Returns (acc ++ published_values items)%list
    else Raises AttributeError.
Proof.
  revert acc. induction items as [|item items IH]; intros acc; cbn.
  - by rewrite app_nil_r.
  - destruct item as [| | | | |entries]; cbn; try done.
    rewrite IH. destruct (forallb is_dict items); [|done].
    unfold published_values. cbn.
    destruct (dict_lookup entries "sg_publish") as [sg_data|]; cbn; [|done].
    destruct (py_truthy sg_data); [|done]. by rewrite <- app_assoc.
Qed.

(** C9, as amended. [filter_publishes] always returns a list. The list is
    empty when the hook invocation raises or returns something that is not
    a list, and also when the list it returns holds an item that is not a
    dict; when all the items are dicts it is, in the order of the hook
    output, the ["sg_publish"] values that are present and truthy. *)
Theorem filter_publishes_result app sg_data_list :
  snd (filter_publishes app sg_data_list) =
    match hook_outcome app sg_data_list with
    | Returns (VList items) =>
        if forallb is_dict items then published_values items else []
    | _ => []
    end.
Proof.
  unfold filter_publishes, filter_publishes_try, hook_outcome.
  destruct (py_iter sg_data_list) as [items|e]; cbn; [|done].
  destruct (execute_hook _ _ _) as [out|e]; cbn; [|done].
  destruct out as [| | | | out |]; cbn; try done.
  rewrite split_publishes_spec. by destruct (forallb is_dict out).
Qed.

(** C9 as stated fails when the hook returns a list with an item that is
    not a dict: the publish of the first item is present and truthy, yet
    the function returns the empty list. *)
Lemma filter_publishes_counterexample :
  let publish := VDict [("id", VInt 1)] in
  let out := [VDict [("sg_publish", publish)]; VNone] in
  let app := hook_returning (VList out) in
  hook_outcome app (VList [publish]) = Returns (VList out)
  ∧ published_values out = [publish]
  ∧ filter_publishes app (VList [publish]) = ([LogException], []).
Proof. repeat split; reflexivity. Qed.

(** With a hook that hands back what it is given, the publishes that are
    truthy come back, in order, and nothing is logged. *)
Lemma filter_publishes_identity_hook items :
  filter_publishes hook_identity (VList items) = ([], filter (λ v, py_truthy v = true) items).
Proof.
  unfold filter_publishes, filter_publishes_try. cbn.
  rewrite split_publishes_spec.
  assert (forallb is_dict (wrap_publish <$> items) = true) as ->.
  { by induction items. }
  cbn. f_equal. induction items as [|x items IH]; [done|].
  rewrite filter_cons. unfold published_values in *. cbn. rewrite IH.
  destruct (py_truthy x); [by rewrite decide_True | by rewrite decide_False].
Qed.

(** ** [resolve_filters] *)

Lemma mapM_ext_Forall {A B} (f g : A → result B) l :
  Forall (λ x, f x = g x) l → mapM f l = mapM g l.
Proof. induction 1 as [|x l Hx _ IH]; [done|]. cbn. by rewrite Hx, IH. Qed.

Lemma mapM_total {A B} (f : A → result B) l :
  Forall (λ x, ∃ y, f x = Returns y) l → ∃ k, mapM f l = Returns k.
Proof.
  induction 1 as [|x l [y Hy] _ [k IH]]; [by exists []|].
  exists (y :: k). cbn. by rewrite Hy; cbn; rewrite IH.
Qed.

Lemma dict_lookup_in_spec {R} key (found : value → R) missing entries :
  dict_lookup_in key found missing entries =
    match dict_lookup entries key with
    | Some v => found v
    | None => missing
    end.
Proof.
  induction entries as [|[k v] entries IH]; [done|]. cbn.
  by destruct (String.eqb k key).
Qed.

(** Induction on values that reaches the items of a list and the values of
    a dict. *)
Lemma value_nested_ind (P : value → Prop) :
  P VNone → (∀ b, P (VBool b)) → (∀ z, P (VInt z)) → (∀ s, P (VStr s)) →
  (∀ items, Forall P items → P (VList items)) →
  (∀ entries, Forall (λ kv, P kv.2) entries → P (VDict entries)) →
  ∀ v, P v.
Proof.
  intros HNone HBool HInt HStr HList HDict.
  refine (fix go (v : value) : P v :=
    match v with
    | VNone => HNone
    | VBool b => HBool b
    | VInt z => HInt z
    | VStr s => HStr s
    | VList items =>
        HList items
          ((fix each (l : list value) : Forall P l :=
              match l with
              | [] => Forall_nil_2 P
              | x :: l' => Forall_cons_2 P x l' (go x) (each l')
              end) items)
    | VDict entries =>
        HDict entries
          ((fix each (l : list (string * value)) : Forall (λ kv, P kv.2) l :=
              match l with
              | [] => Forall_nil_2 _
              | kv :: l' =>
                  Forall_cons_2 (λ kv, P kv.2) kv l'
                    (match kv with (_, x) => go x end) (each l')
              end) entries)
    end).
Qed.

Lemma chars_of_strs s : Forall (λ v, ∃ t, v = VStr t) (chars_of s).
Proof. induction s; constructor; eauto. Qed.

(** The dict branch, as the source writes it. *)
Lemma resolve_filter_dict ctx entries :
  resolve_filter ctx (VDict entries) =
    (operator ← dict_getitem entries "filter_operator";
     filters ← dict_getitem entries "filters";
     resolved ← resolve_filters ctx filters;
     Returns (VDict [("filter_operator", operator);
                     ("filters", VList resolved)])).
Proof.
  cbn [resolve_filter]. destruct (dict_getitem entries "filter_operator");
    cbn; [|done].
  rewrite dict_lookup_in_spec. unfold dict_getitem, resolve_filters.
  destruct (dict_lookup entries "filters") as [filters|]; cbn; [|done].
  assert (Hstr : ∀ l : list value, Forall (λ v, ∃ t, v = VStr t) l →
            mapM (resolve_condition ctx) l = mapM (resolve_filter ctx) l).
  { intros l Hl. apply mapM_ext_Forall. eapply Forall_impl; [exact Hl|].
    by intros ? [t ->]. }
  destruct filters as [| | |s|items|es]; cbn; try done.
  - by rewrite Hstr by apply chars_of_strs.
  - rewrite Hstr; [done|]. apply Forall_fmap, Forall_true. intros; cbn; eauto.
Qed.

Lemma resolve_filter_other ctx filter :
  is_dict filter = false → resolve_filter ctx filter = resolve_condition ctx filter.
Proof. by destruct filter. Qed.

Lemma eq_str_true field token : eq_str field token = true → field = VStr token.
Proof. destruct field; try done. cbn. by intros ->%String.eqb_eq. Qed.

(** A field that is not a context token is returned as it is. *)
Lemma resolve_field_other ctx field :
  ¬ is_context_token field → resolve_field ctx field = Returns field.
Proof.
  intros Hno. unfold resolve_field.
  repeat match goal with
  | |- context [eq_str field ?tok] =>
      destruct (eq_str field tok) eqn:?E;
      [exfalso; apply Hno; exists tok; split;
         [unfold context_tokens; set_solver | by apply eq_str_true]|]
  end.
  done.
Qed.

Lemma resolve_field_total ctx field :
  documented_context ctx = true → ∃ r, resolve_field ctx field = Returns r.
Proof.
  unfold documented_context, resolve_field. intros Hctx.
  repeat match goal with
  | |- context [if eq_str field ?tok then _ else _] =>
      destruct (eq_str field tok); [try by eauto|]
  end; [|eauto].
  destruct (ctx_project ctx) as [| | | | |[|]]; cbn; try done; eauto.
Qed.

Lemma dict_lookup_Forall (P : value → Prop) entries key v :
  Forall (λ kv, P kv.2) entries → dict_lookup entries key = Some v → P v.
Proof.
  induction 1 as [|[k x] entries Hx _ IH]; [done|]. cbn.
  destruct (String.eqb k key); [by intros [= <-]|done].
Qed.

Lemma resolve_filter_total ctx filter :
  documented_context ctx = true → documented_filter filter = true →
  ∃ r, resolve_filter ctx filter = Returns r.
Proof.
  intros Hctx.
  pose (Q := λ f, documented_filter f = true → ∃ r, resolve_filter ctx f = Returns r).
  cut (Q filter ∧ ∀ items, filter = VList items → Forall Q items); [by intros []|].
  induction filter as [| | | |items IH|entries IH]
    using value_nested_ind; (split; [|try done]); try done.
  - intros _. cbn. destruct (mapM_total (resolve_field ctx) items) as [k ->].
    { apply Forall_true. intros. by apply resolve_field_total. }
    cbn. eauto.
  - intros ? [= <-]. eapply Forall_impl; [exact IH|]. by intros ? [].
  - unfold Q. cbn [documented_filter]. rewrite dict_lookup_in_spec.
    intros [Hop Hsub]%andb_true_iff.
    apply bool_decide_eq_true in Hop as [operator Hop].
    destruct (dict_lookup entries "filters") as [sub|] eqn:Hfs; [|done].
    destruct sub as [| | | |items|]; try done.
    rewrite resolve_filter_dict. unfold dict_getitem. rewrite Hop, Hfs. cbn.
    destruct (dict_lookup_Forall
                (λ v, Q v ∧ ∀ items, v = VList items → Forall Q items)
                _ _ _ IH Hfs) as [_ Hitems].
    destruct (mapM_total (resolve_filter ctx) items) as [k ->]; [|cbn; eauto].
    specialize (Hitems items eq_refl).
    apply Forall_forall. intros f Hf. apply (proj1 (Forall_forall _ _) Hitems f Hf).
    by apply (proj1 (forallb_forall _ _) Hsub), list_elem_of_In.
Qed.

Lemma resolve_condition_shape ctx filter out :
  resolve_condition ctx filter = Returns out →
  ∃ fields resolved,
    py_iter filter = Returns fields
    ∧ out = VList resolved
    ∧ length resolved = length fields
    ∧ ∀ j field, fields !! j = Some field → ¬ is_context_token field →
                 resolved !! j = Some field.
Proof.
  unfold resolve_condition.
  destruct (py_iter filter) as [fields|e]; cbn; [|done].
  destruct (mapM (resolve_field ctx) fields) as [resolved|e] eqn:Hm; cbn; [|done].
  intros [= <-]. exists fields, resolved.
  apply mapM_Returns_inv in Hm. repeat split; try done.
  - symmetry. by eapply Forall2_length.
  - intros j field Hj Hno.
    destruct (Forall2_lookup_l _ _ _ _ _ Hm Hj) as (r & -> & Hr).
    rewrite resolve_field_other in Hr by done. by simplify_eq.
Qed.

(** C10. [resolve_filters] keeps the shape of its input. On filters in the
    documented format, under a context of the toolkit, the call returns.
    Whenever it returns, the output has as many items as the input; at the
    position of a dict filter stands a dict with the same
    ["filter_operator"] value and, under ["filters"], the list that
    [resolve_filters] returns for the ["filters"] of the input; at the
    position of any other filter stands a list with as many fields, where
    every field that is not one of the six context tokens is the field of
    the input at that position. *)
Theorem resolve_filters_shape ctx filters items :
  py_iter filters = Returns items →
  (documented_context ctx = true → documented_filters filters = true →
   ∃ out, resolve_filters ctx filters = Returns out)
  ∧ ∀ out,
      resolve_filters ctx filters = Returns out →
      length out = length items
      ∧ ∀ i filter,
          items !! i = Some filter →
          match filter with
          | VDict entries =>
              ∃ operator sub resolved,
                dict_lookup entries "filter_operator" = Some operator
                ∧ dict_lookup entries "filters" = Some sub
                ∧ resolve_filters ctx sub = Returns resolved
                ∧ out !! i = Some (VDict [("filter_operator", operator);
                                          ("filters", VList resolved)])
          | _ =>
              ∃ fields resolved,
                py_iter filter = Returns fields
                ∧ out !! i = Some (VList resolved)
                ∧ length resolved = length fields
                ∧ ∀ j field,
                    fields !! j = Some field → ¬ is_context_token field →
                    resolved !! j = Some field
          end.
Proof.
  intros Hiter. unfold resolve_filters. rewrite Hiter. cbn. split.
  - intros Hctx Hdoc. destruct filters as [| | | |fs|]; try done.
    cbn in Hiter. simplify_eq. apply mapM_total, Forall_forall.
    intros f Hf. apply resolve_filter_total; [done|].
    by apply (proj1 (forallb_forall _ _) Hdoc), list_elem_of_In.
  - intros out Hout%mapM_Returns_inv. split.
    { symmetry. by eapply Forall2_length. }
    intros i filter Hi.
    destruct (Forall2_lookup_l _ _ _ _ _ Hout Hi) as (r & Hr & Hres).
    assert (Hother : is_dict filter = false →
              ∃ fields resolved,
                py_iter filter = Returns fields
                ∧ out !! i = Some (VList resolved)
                ∧ length resolved = length fields
                ∧ ∀ j field,
                    fields !! j = Some field → ¬ is_context_token field →
                    resolved !! j = Some field).
    { intros Hnd. rewrite resolve_filter_other in Hres by done.
      apply resolve_condition_shape in Hres
        as (fields & resolved & ? & -> & ? & ?).
      by exists fields, resolved. }
    destruct filter as [| | | | |entries]; try by apply Hother.
    rewrite resolve_filter_dict in Hres. unfold dict_getitem in Hres.
    destruct (dict_lookup entries "filter_operator") as [operator|];
      cbn in Hres; [|done].
    destruct (dict_lookup entries "filters") as [sub|]; cbn in Hres; [|done].
    destruct (resolve_filters ctx sub) as [resolved|e] eqn:Hsub;
      cbn in Hres; [|done].
    simplify_eq. by exists operator, sub, resolved.
Qed.

Lemma resolve_filters_witness :
  let ctx := {| ctx_entity := VNone; ctx_step := VNone;
                ctx_project := VDict [("type", VStr "Project"); ("id", VInt 7)];
                ctx_task := VNone;
                ctx_user := VDict [("type", VStr "HumanUser"); ("id", VInt 86)] |} in
  let inner := VList [VStr "task_assignees"; VStr "is"; VStr "{context.user}"] in
  let filters :=
    [ VList [VStr "project.id"; VStr "is"; VStr "{context.project.id}"];
      VDict [("filter_operator", VStr "any"); ("filters", VList [inner])] ] in
  ∃ out,
    resolve_filters ctx (VList filters) = Returns out
    ∧ length out = 2%nat
    ∧ out !! 0%nat = Some (VList [VStr "project.id"; VStr "is"; VInt 7]).
Proof.
  intros ctx inner filters.
  destruct (resolve_filters_shape ctx (VList filters) filters eq_refl)
    as [Htotal Hshape].
  destruct Htotal as [out Hout]; [reflexivity..|].
  exists out. split; [done|]. split.
  - apply (Hshape out Hout).
  - vm_compute in Hout. by simplify_eq.
Defined.

(** * Further properties *)

(** ** The frame pattern, in general *)

Lemma match_run_decomp s g :
  match_run s = Some g →
  ∃ after, s = g +:+ after ∧ at_dollar after = true ∧ g ≠ ""
           ∧ all_chars is_frame_char g = true.
Proof.
  revert g. induction s as [|c s IH]; intros g; [done|]. cbn.
  destruct (is_frame_char c) eqn:Hc; [|done].
  destruct (match_run s) as [g'|].
  - intros [= <-]. destruct (IH g' eq_refl) as (after & -> & ? & ? & Hall).
    exists after. cbn. by rewrite Hc, Hall.
  - destruct (at_dollar s) eqn:Hs; [|done]. intros [= <-].
    exists s. cbn. by rewrite Hc.
Qed.

Lemma match_at_decomp s g :
  match_at s = Some g →
  ∃ after, s = g +:+ after ∧ at_dollar after = true ∧ g ≠ ""
    ∧ (all_chars is_frame_char g = true
       ∨ ∃ d, is_digit d = true ∧ g = printf_token d).
Proof.
  unfold match_at. destruct (match_run s) as [g'|] eqn:Hrun.
  - intros [= <-]. apply match_run_decomp in Hrun as (after & ? & ? & ? & ?).
    exists after. auto.
  - intros Hp. destruct (match_printf_token _ _ Hp) as (d & Hd & ->).
    apply match_printf_Some in Hp as (after & ? & _ & ?).
    exists after. repeat split; eauto.
Qed.

Lemma re_sub_from_skip g after :
  re_sub_from (String.length g) (g +:+ after) = re_sub_from 0 after.
Proof. induction g as [|c g IH]; [done|]. by rewrite app_cons. Qed.

Lemma re_sub_after after : at_dollar after = true → re_sub_from 0 after = after.
Proof. by intros [->| ->]%at_dollar_inv. Qed.

(** A match of the pattern is a token at the end of the text, or just before
    its final newline, and the substitution replaces that token and nothing
    else. *)
Lemma search_decomp s m :
  re_search s = Some m →
  ∃ before after,
    s = before +:+ m_group m +:+ after
    ∧ String.length before = m_start m
    ∧ re_sub s = before +:+ "*" +:+ after
    ∧ at_dollar after = true
    ∧ m_group m ≠ ""
    ∧ (all_chars is_frame_char (m_group m) = true
       ∨ ∃ d, is_digit d = true ∧ m_group m = printf_token d).
Proof.
  unfold re_sub. revert m. induction s as [|c s IH]; intros m; [done|].
  cbn [re_search re_sub_from].
  destruct (match_at (String c s)) as [g|] eqn:Hat.
  - intros [= <-]. cbn [m_group m_start].
    destruct (match_at_decomp _ _ Hat) as (after & Hs & Hafter & Hg & Hkind).
    exists "", after. rewrite !app_empty_l. repeat split; try done.
    destruct g as [|a g]; [done|]. rewrite app_cons in Hs. simplify_eq.
    cbn [String.length Nat.pred].
    by rewrite re_sub_from_skip, re_sub_after.
  - destruct (re_search s) as [m'|]; [|done]. intros [= <-].
    destruct (IH m' eq_refl) as (before & after & Hs & Hlen & Hsub & ? & ? & ?).
    exists (String c before), after. cbn [shift_match m_group m_start].
    rewrite !app_cons, <- Hs, Hsub. cbn. by rewrite Hlen.
Qed.

Lemma not_all_digits_int acc s :
  all_chars is_digit s = false → int_digits acc s = None.
Proof.
  revert acc. induction s as [|c s IH]; intros acc; cbn; [done|].
  unfold is_digit. destruct (digit_value c); [|done]. cbn. apply IH.
Qed.

Lemma frame_suffix_nonempty s c :
  last_char s = Some c → is_frame_char c = true → frame_suffix s ≠ "".
Proof.
  intros Hl Hc. induction s as [|a s IH]; [done|]. cbn [frame_suffix].
  destruct (all_chars is_frame_char (String a s)) eqn:E; [done|].
  rewrite last_char_cons in Hl. destruct s as [|b s]; [|by apply IH].
  simplify_eq. cbn in E. by rewrite Hc in E.
Qed.

(** X1. What [int(re.search(frame_pattern, f).group(1))] does on the stem
    of an enumerated file. A stem that carries a decimal frame number gives
    that number. A stem that ends in a frame token which is not a number (a
    run with a hash in it, or [%0Nd]) raises [ValueError]. A stem without
    frame token, and without final newline, raises [AttributeError]. *)
Theorem frame_of_root_cases stem :
  (∀ z, frame_number stem = Some z → frame_of_root stem = Returns z)
  ∧ (frame_number stem = None → ends_in_frame_token stem →
     frame_of_root stem = Raises ValueError)
  ∧ (¬ ends_in_frame_token stem → last_char stem ≠ Some LF →
     frame_of_root stem = Raises AttributeError).
Proof.
  split; [|split].
  - apply frame_number_of_root.
  - unfold frame_number, frame_of_root.
    intros Hnone [(c & Hl & Hc)|(before & d & Hd & ->)].
    + destruct (frame_end_search stem c Hl Hc) as [-> _]. cbn [m_group].
      pose proof (frame_suffix_nonempty _ _ Hl Hc) as Hne.
      destruct (frame_suffix stem) as [|a t]; [done|]. unfold py_int.
      destruct (all_chars is_digit (String a t)) eqn:Hd.
      * by rewrite Hnone.
      * by rewrite not_all_digits_int.
    + destruct (printf_end_search before d Hd) as [-> _]. done.
  - intros Htok Hlf. unfold frame_of_root.
    by rewrite (no_frame_token_no_match "" stem).
Qed.

Lemma frame_of_root_cases_witness :
  frame_of_root "shot_0007" = Returns 7%Z
  ∧ frame_of_root "shot_0#07" = Raises ValueError
  ∧ frame_of_root "shot_%04d" = Raises ValueError
  ∧ frame_of_root "shot_final" = Raises AttributeError.
Proof.
  split; [|split; [|split]].
  - apply (proj1 (frame_of_root_cases "shot_0007")). vm_compute. reflexivity.
  - apply (proj1 (proj2 (frame_of_root_cases "shot_0#07"))).
    + vm_compute. reflexivity.
    + left. exists "7"%char. split; vm_compute; reflexivity.
  - apply (proj1 (proj2 (frame_of_root_cases "shot_%04d"))).
    + vm_compute. reflexivity.
    + right. exists "shot_", "4"%char. split; vm_compute; reflexivity.
  - apply (proj2 (proj2 (frame_of_root_cases "shot_final"))).
    + intros [(c & Hl & Hc)|(before & d & _ & Hs)].
      * vm_compute in Hl. by simplify_eq.
      * apply (f_equal last_char) in Hs. rewrite last_char_app in Hs by done.
        by vm_compute in Hs.
    + by vm_compute.
Defined.

(** X2. The glob pattern is the path with the matched frame token replaced
    by the wildcard: what comes before the token (directories included) and
    what comes after it (the extension, and a final newline of the stem if
    there is one) are kept as they are; the token is not empty and is a run
    of digits and hashes or [%0Nd]. *)
Theorem glob_pattern_replaces_token path root ext m :
  splitext path = (root, ext) →
  re_search root = Some m →
  ∃ before after,
    path = before +:+ m_group m +:+ after +:+ ext
    ∧ glob_path_of root ext = before +:+ "*" +:+ after +:+ ext
    ∧ String.length before = m_start m
    ∧ (after = "" ∨ after = String LF "")
    ∧ m_group m ≠ ""
    ∧ (all_chars is_frame_char (m_group m) = true
       ∨ ∃ d, is_digit d = true ∧ m_group m = printf_token d).
Proof.
  intros Hsplit Hm.
  destruct (search_decomp _ _ Hm)
    as (before & after & Hs & Hlen & Hsub & Hafter & Hg & Hkind).
  exists before, after. repeat split; try done.
  - rewrite (splitext_app _ _ _ Hsplit), Hs. by rewrite !str_app_assoc.
  - unfold glob_path_of. rewrite Hsub. by rewrite !str_app_assoc.
  - by apply at_dollar_inv.
Qed.

Lemma glob_pattern_witness :
  ∃ before after,
    "/proj/sh010/render.0042.exr" = before +:+ "0042" +:+ after +:+ ".exr"
    ∧ glob_path_of "/proj/sh010/render.0042" ".exr"
      = before +:+ "*" +:+ after +:+ ".exr"
    ∧ String.length before = 19%nat
    ∧ (after = "" ∨ after = String LF "")
    ∧ "0042" ≠ ""
    ∧ (all_chars is_frame_char "0042" = true
       ∨ ∃ d, is_digit d = true ∧ "0042" = printf_token d).
Proof.
  apply (glob_pattern_replaces_token "/proj/sh010/render.0042.exr"
           "/proj/sh010/render.0042" ".exr"
           {| m_start := 19; m_group := "0042" |});
    vm_compute; reflexivity.
Defined.

(** ** Ranges of the pattern resolver *)

(** What a returned range says about the enumerated files. *)
Lemma sequence_range_inv glob path lo hi :
  sequence_range_from_path glob path = Returns (Some (lo, hi)) →
  ∃ root ext frames,
    splitext path = (root, ext)
    ∧ is_Some (re_search root)
    ∧ Forall2 (λ f z, frame_of_root (fst (splitext f)) = Returns z)
              (glob (glob_path_of root ext)) frames
    ∧ lo ∈ frames ∧ hi ∈ frames
    ∧ ∀ z, z ∈ frames → (lo ≤ z ≤ hi)%Z.
Proof.
  unfold sequence_range_from_path.
  destruct (splitext path) as [root ext] eqn:Hsplit.
  destruct (re_search root) as [m|] eqn:Hm; [|done].
  destruct (mapM _ _) as [frames|e] eqn:Hmap; cbn; [|done].
  destruct frames as [|x xs]; cbn; [done|]. intros [= <- <-].
  exists root, ext, (x :: xs).
  destruct (foldl_min_spec x xs) as [? ?], (foldl_max_spec x xs) as [? ?].
  repeat split; eauto.
  apply mapM_Returns_inv in Hmap. by apply Forall2_fmap_l in Hmap.
Qed.

(** X3. A range that is returned is well formed and exact: the lower bound
    is not above the upper bound, each bound is the frame number of an
    enumerated file, and every enumerated file has a frame number between
    the bounds. *)
Theorem pattern_range_exact glob path lo hi :
  sequence_range_from_path glob path = Returns (Some (lo, hi)) →
  (lo ≤ hi)%Z
  ∧ ∃ root ext,
      splitext path = (root, ext)
      ∧ (∃ f, f ∈ glob (glob_path_of root ext)
              ∧ frame_of_root (fst (splitext f)) = Returns lo)
      ∧ (∃ f, f ∈ glob (glob_path_of root ext)
              ∧ frame_of_root (fst (splitext f)) = Returns hi)
      ∧ ∀ f, f ∈ glob (glob_path_of root ext) →
             ∃ z, frame_of_root (fst (splitext f)) = Returns z
                  ∧ (lo ≤ z ≤ hi)%Z.
Proof.
  intros (root & ext & frames & Hsplit & _ & Hframes & Hlo & Hhi & Hall)
    %sequence_range_inv.
  split; [by destruct (Hall lo Hlo)|].
  exists root, ext. repeat split; [done|..].
  - apply list_elem_of_lookup in Hlo as [i Hi].
    destruct (Forall2_lookup_r _ _ _ _ _ Hframes Hi) as (f & Hf & ?).
    exists f. split; [|done]. by eapply list_elem_of_lookup_2.
  - apply list_elem_of_lookup in Hhi as [i Hi].
    destruct (Forall2_lookup_r _ _ _ _ _ Hframes Hi) as (f & Hf & ?).
    exists f. split; [|done]. by eapply list_elem_of_lookup_2.
  - intros f [i Hi]%list_elem_of_lookup.
    destruct (Forall2_lookup_l _ _ _ _ _ Hframes Hi) as (z & Hz & ?).
    exists z. split; [done|]. apply Hall. by eapply list_elem_of_lookup_2.
Qed.

Lemma pattern_range_exact_witness :
  let glob := Disk.glob ["shot_0010.exr"; "shot_0011.exr"; "shot_0015.exr"] in
  (10 ≤ 15)%Z
  ∧ ∃ root ext,
      splitext "shot_0011.exr" = (root, ext)
      ∧ (∃ f, f ∈ glob (glob_path_of root ext)
              ∧ frame_of_root (fst (splitext f)) = Returns 10%Z)
      ∧ (∃ f, f ∈ glob (glob_path_of root ext)
              ∧ frame_of_root (fst (splitext f)) = Returns 15%Z)
      ∧ ∀ f, f ∈ glob (glob_path_of root ext) →
             ∃ z, frame_of_root (fst (splitext f)) = Returns z
                  ∧ (10 ≤ z ≤ 15)%Z.
Proof.
  intros glob. apply (pattern_range_exact glob "shot_0011.exr").
  vm_compute. reflexivity.
Defined.

Lemma mapM_perm {A B} (f : A → result B) l l' k :
  l ≡ₚ l' → mapM f l = Returns k →
  ∃ k', mapM f l' = Returns k' ∧ k ≡ₚ k'.
Proof.
  intros Hperm. revert k.
  induction Hperm as [|x l l' _ IH|x y l|l l' l'' _ IH1 _ IH2]; intros k; cbn.
  - intros [= <-]. by exists [].
  - destruct (f x) as [b|]; cbn; [|done].
    destruct (mapM f l) as [k0|] eqn:E; cbn; [|done]. intros [= <-].
    destruct (IH k0 eq_refl) as (k' & -> & Hk). exists (b :: k'). cbn.
    split; [done|]. by constructor.
  - destruct (f y) as [b|]; cbn; [|done].
    destruct (f x) as [a|]; cbn; [|done].
    destruct (mapM f l) as [k0|]; cbn; [|done]. intros [= <-].
    exists (a :: b :: k0). split; [done|]. constructor.
  - intros Hk. destruct (IH1 k Hk) as (k1 & Hk1 & ?).
    destruct (IH2 k1 Hk1) as (k2 & Hk2 & ?). exists k2. split; [done|].
    by etrans.
Qed.

Lemma py_min_perm k k' : k ≡ₚ k' → py_min k = py_min k'.
Proof.
  intros Hperm. destruct k as [|x xs], k' as [|y ys]; cbn; try done.
  - by apply Permutation_nil_l in Hperm.
  - by apply Permutation_nil_r in Hperm.
  - f_equal. destruct (foldl_min_spec x xs) as [Hin Hle].
    destruct (foldl_min_spec y ys) as [Hin' Hle'].
    rewrite Hperm in Hin. rewrite <- Hperm in Hin'.
    specialize (Hle _ Hin'). specialize (Hle' _ Hin). lia.
Qed.

Lemma py_max_perm k k' : k ≡ₚ k' → py_max k = py_max k'.
Proof.
  intros Hperm. destruct k as [|x xs], k' as [|y ys]; cbn; try done.
  - by apply Permutation_nil_l in Hperm.
  - by apply Permutation_nil_r in Hperm.
  - f_equal. destruct (foldl_max_spec x xs) as [Hin Hle].
    destruct (foldl_max_spec y ys) as [Hin' Hle'].
    rewrite Hperm in Hin. rewrite <- Hperm in Hin'.
    specialize (Hle _ Hin'). specialize (Hle' _ Hin). lia.
Qed.

(** X4. The order in which the disk lists the files does not matter to a
    call that returns: on two disks whose glob results are the same up to
    order, a result returned on one is returned on the other. *)
Theorem pattern_range_order_independent glob glob' path r :
  (∀ pattern, glob pattern ≡ₚ glob' pattern) →
  sequence_range_from_path glob path = Returns r →
  sequence_range_from_path glob' path = Returns r.
Proof.
  intros Hperm. unfold sequence_range_from_path.
  destruct (splitext path) as [root ext].
  destruct (re_search root); [|done].
  destruct (mapM _ (map _ (glob _))) as [frames|e] eqn:Hmap; cbn; [|done].
  destruct (mapM_perm frame_of_root _
              (map (λ f, fst (splitext f)) (glob' (glob_path_of root ext)))
              _ (fmap_Permutation _ _ _ (Hperm _)) Hmap)
    as (frames' & -> & Hframes).
  cbn. by rewrite (py_min_perm _ _ Hframes), (py_max_perm _ _ Hframes).
Qed.

Lemma pattern_range_order_witness :
  sequence_range_from_path
    (λ _, ["shot_0015.exr"; "shot_0010.exr"; "shot_0011.exr"])
    "shot_0011.exr"
  = Returns (Some (10, 15)%Z).
Proof.
  apply (pattern_range_order_independent
           (λ _, ["shot_0010.exr"; "shot_0011.exr"; "shot_0015.exr"])).
  - intros _. symmetry.
    apply (Permutation_cons_append ["shot_0010.exr"; "shot_0011.exr"]).
  - vm_compute. reflexivity.
Defined.

Lemma frames_of_hit {A} (f : A → result Z) hits frames x :
  Forall2 (λ h z, f h = Returns z) hits frames → x ∈ hits →
  ∃ z, f x = Returns z ∧ z ∈ frames.
Proof.
  intros HF [i Hi]%list_elem_of_lookup.
  destruct (Forall2_lookup_l _ _ _ _ _ HF Hi) as (z & Hz & ?).
  exists z. split; [done|]. by eapply list_elem_of_lookup_2.
Qed.

Lemma hit_of_frame {A} (f : A → result Z) hits frames z :
  Forall2 (λ h z, f h = Returns z) hits frames → z ∈ frames →
  ∃ x, x ∈ hits ∧ f x = Returns z.
Proof.
  intros HF [i Hi]%list_elem_of_lookup.
  destruct (Forall2_lookup_r _ _ _ _ _ HF Hi) as (x & Hx & ?).
  exists x. split; [|done]. by eapply list_elem_of_lookup_2.
Qed.

(** X5. More files can only widen the range: when every file that one disk
    enumerates is enumerated by another and the call returns a range on
    both, the range on the larger disk contains the range on the smaller. *)
Theorem pattern_range_monotone glob glob' path lo hi lo' hi' :
  (∀ pattern f, f ∈ glob pattern → f ∈ glob' pattern) →
  sequence_range_from_path glob path = Returns (Some (lo, hi)) →
  sequence_range_from_path glob' path = Returns (Some (lo', hi')) →
  (lo' ≤ lo ∧ hi ≤ hi')%Z.
Proof.
  intros Hsub
    (root & ext & frames & Hsplit & _ & Hframes & Hlo & Hhi & _)%sequence_range_inv
    (root' & ext' & frames' & Hsplit' & _ & Hframes' & _ & _ & Hall')
      %sequence_range_inv.
  rewrite Hsplit in Hsplit'. simplify_eq.
  destruct (hit_of_frame _ _ _ _ Hframes Hlo) as (f1 & Hf1 & Hz1).
  destruct (hit_of_frame _ _ _ _ Hframes Hhi) as (f2 & Hf2 & Hz2).
  destruct (frames_of_hit _ _ _ _ Hframes' (Hsub _ _ Hf1)) as (z1 & Hz1' & Hin1).
  destruct (frames_of_hit _ _ _ _ Hframes' (Hsub _ _ Hf2)) as (z2 & Hz2' & Hin2).
  cbn in *. rewrite Hz1 in Hz1'. rewrite Hz2 in Hz2'. simplify_eq.
  destruct (Hall' _ Hin1), (Hall' _ Hin2). lia.
Qed.

Lemma pattern_range_monotone_witness : (3 ≤ 10 ∧ 15 ≤ 15)%Z.
Proof.
  apply (pattern_range_monotone
           (λ _, ["shot_0010.exr"; "shot_0015.exr"])
           (λ _, ["shot_0003.exr"; "shot_0010.exr"; "shot_0015.exr"])
           "shot_0010.exr").
  - intros _ f Hf. by right.
  - vm_compute. reflexivity.
  - vm_compute. reflexivity.
Defined.

(** X6. The result does not depend on which member of a sequence is passed:
    two paths with the same extension whose stems end in digits or hashes
    and agree before that trailing run give the same result on the same
    disk. *)
Theorem pattern_range_same_sequence glob path path' root root' ext :
  splitext path = (root, ext) →
  splitext path' = (root', ext) →
  ends_with is_frame_char root →
  ends_with is_frame_char root' →
  frame_prefix root = frame_prefix root' →
  sequence_range_from_path glob path = sequence_range_from_path glob path'.
Proof.
  intros Hsplit Hsplit' (c & Hl & Hc) (c' & Hl' & Hc') Hprefix.
  destruct (frame_end_search root c Hl Hc) as [Hs Hsub].
  destruct (frame_end_search root' c' Hl' Hc') as [Hs' Hsub'].
  rewrite (sequence_range_matched _ _ _ _ Hsplit),
    (sequence_range_matched _ _ _ _ Hsplit') by eauto.
  unfold glob_path_of. by rewrite Hsub, Hsub', Hprefix.
Qed.

Lemma pattern_range_same_sequence_witness :
  let glob := Disk.glob ["v2_0010.exr"; "v2_0011.exr"; "v2_0015.exr"] in
  sequence_range_from_path glob "v2_0010.exr"
  = sequence_range_from_path glob "v2_0015.exr".
Proof.
  intros glob.
  apply (pattern_range_same_sequence glob _ _ "v2_0010" "v2_0015" ".exr").
  - vm_compute. reflexivity.
  - vm_compute. reflexivity.
  - exists "0"%char. split; vm_compute; reflexivity.
  - exists "5"%char. split; vm_compute; reflexivity.
  - vm_compute. reflexivity.
Defined.

(** ** The template resolver *)

(** X7. Of the errors of the toolkit only the [TankError] of
    [template_from_path] is caught. Any other exception of
    [template_from_path], any exception of [get_fields] on the path
    ([TankError] included) and any exception of [paths_from_template]
    escapes unchanged; an exception of [get_fields] on an enumerated file
    makes the call raise. *)
Theorem toolkit_errors_escape glob value_lt tk path :
  (∀ e, template_from_path tk path = Raises e → e ≠ TankError →
        find_sequence_range glob value_lt tk path = Raises e)
  ∧ (∀ template e,
       template_from_path tk path = Returns (Some template) →
       get_fields template path = Raises e →
       find_sequence_range glob value_lt tk path = Raises e)
  ∧ (∀ template fields e,
       template_from_path tk path = Returns (Some template) →
       get_fields template path = Returns fields →
       is_Some (fields !! "SEQ") →
       paths_from_template tk template fields ["SEQ"; "eye"] = Raises e →
       find_sequence_range glob value_lt tk path = Raises e)
  ∧ (∀ template fields files file,
       template_from_path tk path = Returns (Some template) →
       get_fields template path = Returns fields →
       is_Some (fields !! "SEQ") →
       paths_from_template tk template fields ["SEQ"; "eye"] = Returns files →
       file ∈ files →
       is_raised (get_fields template file) →
       is_raised (find_sequence_range glob value_lt tk path)).
Proof.
  repeat split.
  - intros e He Hne. unfold find_sequence_range. rewrite He. by destruct e.
  - intros template e Ht Hf. unfold find_sequence_range.
    rewrite Ht. cbn. by rewrite Hf.
  - intros template fields e Ht Hf Hseq Hp.
    rewrite (template_range_spec _ _ _ _ _ _ Ht Hf Hseq).
    unfold template_range. by rewrite Hp.
  - intros template fields files file Ht Hf Hseq Hp Hin Hraise.
    rewrite (template_range_spec _ _ _ _ _ _ Ht Hf Hseq).
    unfold template_range. rewrite Hp. cbn.
    destruct (mapM_Raises (get_fields template) files file Hin Hraise)
      as [e ->]. by exists e.
Qed.

Lemma toolkit_errors_escape_witness :
  find_sequence_range (Disk.glob []) int_lt
    (tk_with frame_template ["shot_0003.exr"; "shot_final.exr"])
    "shot_0011.exr"
  = Raises TankError.
Proof.
  destruct (proj2 (proj2 (proj2
              (toolkit_errors_escape (Disk.glob []) int_lt
                 (tk_with frame_template ["shot_0003.exr"; "shot_final.exr"])
                 "shot_0011.exr")))
              frame_template {[ "SEQ" := VInt 11 ]}
              ["shot_0003.exr"; "shot_final.exr"] "shot_final.exr")
    as [e He].
  - reflexivity.
  - vm_compute. reflexivity.
  - by eexists.
  - reflexivity.
  - by right; left.
  - exists TankError. vm_compute. reflexivity.
  - rewrite He. vm_compute in He. by simplify_eq.
Defined.

Lemma min_from_ints value_lt x xs :
  (∀ a b, value_lt (VInt a) (VInt b) = Returns (a <? b)%Z) →
  min_from value_lt (VInt x) (VInt <$> xs) = Returns (VInt (foldl Z.min x xs)).
Proof.
  intros Hlt. revert x. induction xs as [|y xs IH]; intros x; [done|].
  cbn. rewrite Hlt. cbn. replace (Z.min x y) with (if (y <? x)%Z then y else x).
  - destruct (y <? x)%Z; apply IH.
  - destruct (Z.ltb_spec y x); lia.
Qed.

Lemma max_from_ints value_lt x xs :
  (∀ a b, value_lt (VInt a) (VInt b) = Returns (a <? b)%Z) →
  max_from value_lt (VInt x) (VInt <$> xs) = Returns (VInt (foldl Z.max x xs)).
Proof.
  intros Hlt. revert x. induction xs as [|y xs IH]; intros x; [done|].
  cbn. rewrite Hlt. cbn. replace (Z.max x y) with (if (x <? y)%Z then y else x).
  - destruct (x <? y)%Z; apply IH.
  - destruct (Z.ltb_spec x y); lia.
Qed.

(** X8. With integer frame numbers the template resolver returns their
    least and greatest. Let a template with a ["SEQ"] field be found for
    the path, let [<] order integers as integers, and let every enumerated
    file have fields whose ["SEQ"] value is an integer, is [None] or is
    missing. The files without a number are passed over; if a number is
    left, the result is the pair of the least and the greatest number, and
    the least is not above the greatest. *)
Theorem template_range_of_integers
    glob value_lt tk path template fields files marks :
  (∀ a b, value_lt (VInt a) (VInt b) = Returns (a <? b)%Z) →
  template_from_path tk path = Returns (Some template) →
  get_fields template path = Returns fields →
  is_Some (fields !! "SEQ") →
  paths_from_template tk template fields ["SEQ"; "eye"] = Returns files →
  Forall2 (λ file mark, ∃ file_fields,
             get_fields template file = Returns file_fields
             ∧ seq_value file_fields = VInt <$> mark) files marks →
  omap id marks ≠ [] →
  ∃ lo hi,
    find_sequence_range glob value_lt tk path
    = Returns (Some (VInt lo, VInt hi))
    ∧ lo ∈ omap id marks ∧ hi ∈ omap id marks
    ∧ (lo ≤ hi)%Z
    ∧ ∀ z, z ∈ omap id marks → (lo ≤ z ≤ hi)%Z.
Proof.
  intros Hlt Ht Hf Hseq Hp Hfiles Hne.
  rewrite (template_range_spec _ _ _ _ _ _ Ht Hf Hseq).
  unfold template_range. rewrite Hp. cbn.
  assert (∃ sibling_fields,
            mapM (get_fields template) files = Returns sibling_fields
            ∧ omap seq_value sibling_fields = VInt <$> omap id marks)
    as (sf & -> & Hsf).
  { clear Hp Hne. induction Hfiles as [|file mark files marks (ff & Hff & Hv) _ IH].
    - by exists [].
    - destruct IH as (sf & Hsf & Hom). exists (ff :: sf). cbn.
      rewrite Hff. cbn. rewrite Hsf. cbn. rewrite Hv, Hom.
      by destruct mark. }
  cbn. rewrite Hsf. destruct (omap id marks) as [|x xs]; [done|].
  cbn [fmap list_fmap value_min value_max].
  change (list_fmap Z value VInt xs) with (VInt <$> xs).
  rewrite min_from_ints, max_from_ints by done. cbn.
  destruct (foldl_min_spec x xs) as [Hlo1 Hlo2].
  destruct (foldl_max_spec x xs) as [Hhi1 Hhi2].
  eexists _, _. split; [done|]. repeat split; auto; by destruct (Hlo2 _ Hhi1).
Qed.

Lemma template_range_of_integers_witness :
  ∃ lo hi,
    find_sequence_range (Disk.glob []) int_lt
      (tk_with frame_template ["shot_0012.exr"; "shot_0003.exr"; "shot_0007.exr"])
      "shot_0011.exr"
    = Returns (Some (VInt lo, VInt hi))
    ∧ lo ∈ omap id [Some 12; Some 3; Some 7]%Z
    ∧ hi ∈ omap id [Some 12; Some 3; Some 7]%Z
    ∧ (lo ≤ hi)%Z
    ∧ ∀ z, z ∈ omap id [Some 12; Some 3; Some 7]%Z → (lo ≤ z ≤ hi)%Z.
Proof.
  apply (template_range_of_integers _ _ _ _ frame_template
           {[ "SEQ" := VInt 11 ]}
           ["shot_0012.exr"; "shot_0003.exr"; "shot_0007.exr"]).
  - by intros a b.
  - reflexivity.
  - vm_compute. reflexivity.
  - by eexists.
  - reflexivity.
  - repeat (constructor; [eexists; split; vm_compute; reflexivity|]).
    constructor.
  - discriminate.
Defined.

(** ** [filter_publishes], log included *)

Lemma filter_publishes_unfold app sg_data_list :
  filter_publishes app sg_data_list =
    match hook_outcome app sg_data_list with
    | Returns (VList items) =>
        if forallb is_dict items then ([], published_values items)
        else ([LogException], [])
    | Returns other => ([LogError (type_name other)], [])
    | Raises _ => ([LogException], [])
    end.
Proof.
  unfold filter_publishes, filter_publishes_try, hook_outcome.
  destruct (py_iter sg_data_list) as [items|e]; cbn; [|done].
  destruct (execute_hook _ _ _) as [out|e]; cbn; [|done].
  destruct out as [| | | | out |]; cbn; try done.
  rewrite split_publishes_spec. by destruct (forallb is_dict out).
Qed.

Lemma published_wrapped kept :
  published_values (wrap_publish <$> kept)
  = filter (λ v, py_truthy v = true) kept.
Proof.
  induction kept as [|x kept IH]; [done|].
  rewrite filter_cons. unfold published_values in *. cbn. rewrite IH.
  destruct (py_truthy x); [by rewrite decide_True | by rewrite decide_False].
Qed.

Lemma published_truthy items :
  Forall (λ v, py_truthy v = true) (published_values items).
Proof.
  induction items as [|item items IH]; [constructor|].
  unfold published_values in *. cbn.
  destruct item as [| | | | |entries]; cbn; try done.
  destruct (dict_lookup entries "sg_publish") as [sg_data|]; cbn; [|done].
  destruct (py_truthy sg_data) eqn:E; cbn; [|done]. by constructor.
Qed.

(** X9. The wrapping of the publishes for the hook and the unwrapping of
    what the hook returns undo each other: when the hook returns wrappers
    around the publishes [kept], the function returns the truthy ones among
    [kept], in order, and logs nothing. When [kept] is moreover a sublist of
    the input, as for a hook that only drops entries, the output is a
    sublist of the input. *)
Theorem filtering_hook_round_trip app sg_data_list kept :
  hook_outcome app sg_data_list = Returns (VList (wrap_publish <$> kept)) →
  filter_publishes app sg_data_list
  = ([], filter (λ v, py_truthy v = true) kept)
  ∧ ∀ items, sg_data_list = VList items → kept `sublist_of` items →
             snd (filter_publishes app sg_data_list) `sublist_of` items.
Proof.
  intros Hhook.
  assert (Hres : filter_publishes app sg_data_list
                 = ([], filter (λ v, py_truthy v = true) kept)).
  { rewrite filter_publishes_unfold, Hhook.
    assert (forallb is_dict (wrap_publish <$> kept) = true) as ->
      by (clear; by induction kept).
    by rewrite published_wrapped. }
  split; [done|]. intros items _ Hsub. rewrite Hres. cbn.
  etrans; [apply sublist_filter|done].
Qed.

Lemma filtering_hook_witness :
  let a := VDict [("id", VInt 1)] in
  let b := VDict [("id", VInt 2)] in
  filter_publishes hook_identity (VList [a; VNone; b])
  = ([], filter (λ v, py_truthy v = true) [a; VNone; b])
  ∧ ∀ items, VList [a; VNone; b] = VList items →
             [a; VNone; b] `sublist_of` items →
             snd (filter_publishes hook_identity (VList [a; VNone; b]))
               `sublist_of` items.
Proof.
  intros a b. apply (filtering_hook_round_trip hook_identity). reflexivity.
Defined.

(** X10. What comes back is never falsy: every entry of the returned list
    is truthy, whatever the hook does, so [None], empty dicts and the like
    are dropped even when the hook hands them back. *)
Theorem filter_publishes_truthy app sg_data_list :
  Forall (λ v, py_truthy v = true) (snd (filter_publishes app sg_data_list)).
Proof.
  rewrite filter_publishes_unfold.
  destruct (hook_outcome app sg_data_list) as [[| | | |items|]|]; cbn;
    try by constructor.
  destruct (forallb is_dict items); cbn; [apply published_truthy|constructor].
Qed.

(** X11. The log of a call. Nothing is logged when the hook returns a list
    of dicts. A result that is not a list is logged once with
    [app.log_error], under the name of its type. An exception of the hook,
    an input that cannot be iterated and a returned item that is not a dict
    are logged once with [app.log_exception]. *)
Theorem filter_publishes_log app sg_data_list :
  fst (filter_publishes app sg_data_list) =
    match hook_outcome app sg_data_list with
    | Returns (VList items) =>
        if forallb is_dict items then [] else [LogException]
    | Returns other => [LogError (type_name other)]
    | Raises _ => [LogException]
    end.
Proof.
  rewrite filter_publishes_unfold.
  destruct (hook_outcome app sg_data_list) as [[| | | |items|]|]; cbn;
    try done.
  by destruct (forallb is_dict items).
Qed.

(** ** [resolve_filters], token by token *)

Lemma token_meaning_tokens ctx token v :
  (token, v) ∈ token_meaning ctx → token ∈ context_tokens.
Proof.
  unfold token_meaning, context_tokens. intros H.
  repeat (apply elem_of_cons in H as [[= -> _]|H]; [by repeat constructor|]).
  by apply elem_of_nil in H.
Qed.

(** What the loop body makes of a field: it keeps it, or the field is a
    context token and it writes what the token stands for. *)
Lemma resolve_field_cases ctx field r :
  resolve_field ctx field = Returns r →
  (r = field ∧ ¬ is_context_token field)
  ∨ ∃ token, field = VStr token ∧ (token, r) ∈ token_meaning ctx.
Proof.
  unfold resolve_field.
  destruct (eq_str field "{context.entity}") eqn:E1.
  { apply eq_str_true in E1 as ->. intros [= <-]. right. eexists. split; [done|].
    unfold token_meaning. by repeat constructor. }
  destruct (eq_str field "{context.step}") eqn:E2.
  { apply eq_str_true in E2 as ->. intros [= <-]. right. eexists. split; [done|].
    unfold token_meaning. by repeat constructor. }
  destruct (eq_str field "{context.project}") eqn:E3.
  { apply eq_str_true in E3 as ->. intros [= <-]. right. eexists. split; [done|].
    unfold token_meaning. by repeat constructor. }
  destruct (eq_str field "{context.project.id}") eqn:E4.
  { apply eq_str_true in E4 as ->. intros Hr. right. eexists. split; [done|].
    assert (r = project_id ctx) as ->; [|unfold token_meaning; by repeat constructor].
    unfold project_id.
    destruct (ctx_project ctx) as [|[]|z|s|[|]|[|]]; cbn in Hr;
      try done; try by simplify_eq.
    - destruct (z =? 0)%Z; cbn in Hr; by simplify_eq.
    - destruct (String.eqb s ""); cbn in Hr; by simplify_eq. }
  destruct (eq_str field "{context.task}") eqn:E5.
  { apply eq_str_true in E5 as ->. intros [= <-]. right. eexists. split; [done|].
    unfold token_meaning. by repeat constructor. }
  destruct (eq_str field "{context.user}") eqn:E6.
  { apply eq_str_true in E6 as ->. intros [= <-]. right. eexists. split; [done|].
    unfold token_meaning. by repeat constructor. }
  intros [= <-]. left. split; [done|].
  intros (token & Hin & ->). unfold context_tokens in Hin.
  repeat (apply elem_of_cons in Hin as [->|Hin]; [by vm_compute in *|]).
  by apply elem_of_nil in Hin.
Qed.

Lemma token_meaning_functional ctx token v w :
  (token, v) ∈ token_meaning ctx → (token, w) ∈ token_meaning ctx → v = w.
Proof.
  unfold token_meaning. intros Hv Hw.
  repeat (apply elem_of_cons in Hv as [Hv|Hv]);
    try (by apply elem_of_nil in Hv);
    repeat (apply elem_of_cons in Hw as [Hw|Hw]);
    try (by apply elem_of_nil in Hw);
    by simplify_eq.
Qed.

Lemma not_token_of_meaning ctx token v :
  (token, v) ∈ token_meaning ctx → is_context_token (VStr token).
Proof. intros H. exists token. eauto using token_meaning_tokens. Qed.

(** X12. Where a field of a filter that is not a dict is a context token,
    the resolved filter holds at that position what the token stands for:
    the entity, step, project, task or user of the context, and for
    [{context.project.id}] the ["id"] of the project, or [None] when the
    context has no project or the project has no id. *)
Theorem resolve_filters_tokens
    ctx filters items out i filter fields j token v :
  py_iter filters = Returns items →
  resolve_filters ctx filters = Returns out →
  items !! i = Some filter →
  is_dict filter = false →
  py_iter filter = Returns fields →
  fields !! j = Some (VStr token) →
  (token, v) ∈ token_meaning ctx →
  ∃ resolved, out !! i = Some (VList resolved) ∧ resolved !! j = Some v.
Proof.
  intros Hiter Hout Hi Hnd Hfields Hj Htok.
  unfold resolve_filters in Hout. rewrite Hiter in Hout. cbn in Hout.
  apply mapM_Returns_inv in Hout.
  destruct (Forall2_lookup_l _ _ _ _ _ Hout Hi) as (r & Hr & Hres).
  rewrite resolve_filter_other in Hres by done.
  unfold resolve_condition in Hres. rewrite Hfields in Hres. cbn in Hres.
  destruct (mapM (resolve_field ctx) fields) as [resolved|] eqn:Hm;
    cbn in Hres; [|done].
  simplify_eq. exists resolved. split; [done|].
  apply mapM_Returns_inv in Hm.
  destruct (Forall2_lookup_l _ _ _ _ _ Hm Hj) as (x & Hx & Hf).
  rewrite Hx. f_equal.
  apply resolve_field_cases in Hf as [[_ Hno]|(token' & [= <-] & Hin)].
  - destruct Hno. by eapply not_token_of_meaning.
  - by eapply token_meaning_functional.
Qed.

Lemma resolve_filters_tokens_witness :
  ∃ resolved,
    [VList [VStr "project.id"; VStr "is"; VInt 7];
     VList [VStr "task_assignees"; VStr "is";
            VDict [("type", VStr "HumanUser"); ("id", VInt 86)]]]
      !! 1%nat = Some (VList resolved)
    ∧ resolved !! 2%nat
      = Some (VDict [("type", VStr "HumanUser"); ("id", VInt 86)]).
Proof.
  apply (resolve_filters_tokens artist_context
           (VList [VList [VStr "project.id"; VStr "is"; VStr "{context.project.id}"];
                   VList [VStr "task_assignees"; VStr "is"; VStr "{context.user}"]])
           [VList [VStr "project.id"; VStr "is"; VStr "{context.project.id}"];
            VList [VStr "task_assignees"; VStr "is"; VStr "{context.user}"]]
           _ 1
           (VList [VStr "task_assignees"; VStr "is"; VStr "{context.user}"])
           [VStr "task_assignees"; VStr "is"; VStr "{context.user}"]
           2 "{context.user}").
  - reflexivity.
  - vm_compute. reflexivity.
  - reflexivity.
  - reflexivity.
  - reflexivity.
  - reflexivity.
  - unfold token_meaning. do 5 right. left.
Defined.

Lemma char_not_token c : ¬ is_context_token (VStr (String c "")).
Proof.
  intros (token & Hin & [= <-]). unfold context_tokens in Hin.
  repeat (apply elem_of_cons in Hin as [Hin|Hin]; [done|]).
  by apply elem_of_nil in Hin.
Qed.

Lemma resolve_field_fixed ctx field r :
  token_free_context ctx →
  resolve_field ctx field = Returns r → resolve_field ctx r = Returns r.
Proof.
  intros Hctx Hr.
  destruct (resolve_field_cases _ _ _ Hr) as [[-> _]|(token & _ & Hin)]; [done|].
  apply resolve_field_other. by eapply Hctx.
Qed.

Lemma mapM_fixed {A} (f : A → result A) l k :
  mapM f l = Returns k →
  Forall (λ x, ∀ y, f x = Returns y → f y = Returns y) l →
  mapM f k = Returns k.
Proof.
  intros Hm%mapM_Returns_inv Hall. apply mapM_Returns.
  induction Hm as [|x y l k Hxy _ IH]; [constructor|].
  apply Forall_cons in Hall as [Hx Hall]. constructor; auto.
Qed.

Lemma resolve_condition_fixed ctx filter r :
  token_free_context ctx →
  resolve_condition ctx filter = Returns r → resolve_filter ctx r = Returns r.
Proof.
  intros Hctx. unfold resolve_condition at 1.
  destruct (py_iter filter) as [fields|]; cbn; [|done].
  destruct (mapM (resolve_field ctx) fields) as [resolved|] eqn:Hm; cbn; [|done].
  intros [= <-]. cbn. unfold resolve_condition. cbn.
  rewrite (mapM_fixed _ _ _ Hm); [done|].
  apply Forall_true. intros x y. by apply resolve_field_fixed.
Qed.

(** A filter that has been resolved resolves to itself. *)
Lemma resolve_filter_fixed ctx filter r :
  token_free_context ctx →
  resolve_filter ctx filter = Returns r → resolve_filter ctx r = Returns r.
Proof.
  intros Hctx. revert r.
  pose (Q := λ f, ∀ r, resolve_filter ctx f = Returns r →
                       resolve_filter ctx r = Returns r).
  assert (Hother : ∀ f, is_dict f = false → Q f).
  { intros f Hf r. rewrite resolve_filter_other by done.
    by apply resolve_condition_fixed. }
  cut (Q filter ∧ ∀ items, filter = VList items → Forall Q items);
    [by intros []|].
  induction filter as [| | | |items IH|entries IH]
    using value_nested_ind; (split; [|try done]); try by apply Hother.
  - intros ? [= <-]. eapply Forall_impl; [exact IH|]. by intros ? [].
  - intros r. rewrite resolve_filter_dict. unfold dict_getitem.
    destruct (dict_lookup entries "filter_operator") as [operator|];
      cbn; [|done].
    destruct (dict_lookup entries "filters") as [sub|] eqn:Hsub; cbn; [|done].
    destruct (resolve_filters ctx sub) as [resolved|] eqn:Hres; cbn; [|done].
    intros [= <-]. rewrite resolve_filter_dict. cbn.
    unfold resolve_filters in *. cbn.
    destruct (py_iter sub) as [items|] eqn:Hiter; cbn in Hres; [|done].
    rewrite (mapM_fixed _ _ _ Hres); [done|].
    destruct (dict_lookup_Forall
                (λ v, Q v ∧ ∀ items, v = VList items → Forall Q items)
                _ _ _ IH Hsub) as [_ Hitems].
    destruct sub as [| | |s|fs|es]; cbn in Hiter; simplify_eq.
    + eapply Forall_impl; [apply chars_of_strs|].
      intros ? [t ->]. by apply Hother.
    + by apply Hitems.
    + apply Forall_fmap, Forall_true. intros k. by apply Hother.
Qed.

(** X13. Resolving is idempotent. Under a context none of whose values is
    itself a context token, the filters that [resolve_filters] returns
    resolve to themselves. *)
Theorem resolve_filters_idempotent ctx filters out :
  token_free_context ctx →
  resolve_filters ctx filters = Returns out →
  resolve_filters ctx (VList out) = Returns out.
Proof.
  intros Hctx. unfold resolve_filters. cbn.
  destruct (py_iter filters) as [items|]; cbn; [|done].
  intros Hm. apply (mapM_fixed _ _ _ Hm), Forall_true.
  intros x y. by apply resolve_filter_fixed.
Qed.

Lemma artist_context_token_free : token_free_context artist_context.
Proof.
  intros token v Hin (t & _ & ->). unfold token_meaning in Hin.
  repeat (apply elem_of_cons in Hin as [Hin|Hin]; [by simplify_eq|]).
  by apply elem_of_nil in Hin.
Qed.

Lemma resolve_filters_idempotent_witness :
  let user := VDict [("type", VStr "HumanUser"); ("id", VInt 86)] in
  let out :=
    [VDict [("filter_operator", VStr "any");
            ("filters",
             VList [VList [VStr "task_assignees"; VStr "is"; user]])]] in
  resolve_filters artist_context (VList out) = Returns out.
Proof.
  intros user out.
  apply (resolve_filters_idempotent artist_context
           (VList [VDict [("filters",
                           VList [VList [VStr "task_assignees"; VStr "is";
                                         VStr "{context.user}"]]);
                          ("filter_operator", VStr "any");
                          ("note", VStr "mine")]])).
  - exact artist_context_token_free.
  - vm_compute. reflexivity.
Defined.

(** X14. A filter that is a bare string is taken apart: iterating it yields
    its characters, none of which is a context token, so each string
    becomes the list of its one-character strings; a context token given as
    a whole filter is not resolved. *)
Theorem resolve_filters_strings ctx strs :
  resolve_filters ctx (VList (VStr <$> strs))
  = Returns ((λ s, VList (chars_of s)) <$> strs).
Proof.
  unfold resolve_filters. cbn. apply mapM_Returns.
  apply Forall2_fmap, Forall_Forall2_diag, Forall_true. intros s.
  cbn. unfold resolve_condition. cbn.
  rewrite (mapM_Returns _ _ (chars_of s)); [done|].
  apply Forall_Forall2_diag.
  induction s as [|c s IH]; constructor; [|done].
  apply resolve_field_other, char_not_token.
Qed.

(** X15. A filter that cannot be resolved makes the whole call raise: a
    filter that is [None], a boolean or an integer is not iterable, and a
    dict filter without ["filter_operator"] or without ["filters"] has a
    key missing. *)
Theorem malformed_filter_raises ctx items filter :
  filter ∈ items →
  malformed_filter filter →
  is_raised (resolve_filters ctx (VList items)).
Proof.
  intros Hin Hbad. unfold resolve_filters. cbn.
  apply (mapM_Raises _ _ filter Hin).
  destruct filter as [| | | | |entries]; try done;
    try by exists TypeError.
  rewrite resolve_filter_dict. unfold dict_getitem.
  destruct Hbad as [-> | Hf]; [by exists KeyError|].
  destruct (dict_lookup entries "filter_operator"); cbn; [|by exists KeyError].
  rewrite Hf. by exists KeyError.
Qed.

Lemma malformed_filter_witness :
  is_raised
    (resolve_filters artist_context
       (VList [VList [VStr "id"; VStr "is"; VInt 1];
               VDict [("filter_operator", VStr "any")]])).
Proof.
  apply (malformed_filter_raises _ _ (VDict [("filter_operator", VStr "any")])).
  - by right; left.
  - by right.
Defined.

(** ** Frame numbers have no sign *)

Lemma digit_value_bounds c d : digit_value c = Some d → (0 ≤ d ≤ 9)%Z.
Proof.
  unfold digit_value.
  destruct (48 <=? Z.of_N (N_of_ascii c))%Z eqn:E1; [|done].
  destruct (Z.of_N (N_of_ascii c) <=? 57)%Z eqn:E2; [|done].
  intros [= <-]. lia.
Qed.

Lemma int_digits_nonneg acc s z :
  (0 ≤ acc)%Z → int_digits acc s = Some z → (0 ≤ z)%Z.
Proof.
  revert acc. induction s as [|c s IH]; intros acc Hacc; cbn.
  - by intros [= <-].
  - destruct (digit_value c) as [d|] eqn:Hd; [|done].
    apply IH. apply digit_value_bounds in Hd. lia.
Qed.

Lemma frame_of_root_nonneg stem z :
  frame_of_root stem = Returns z → (0 ≤ z)%Z.
Proof.
  unfold frame_of_root, py_int. destruct (re_search stem) as [m|]; [|done].
  destruct (m_group m); [done|].
  destruct (int_digits 0 _) as [v|] eqn:Hv; [|done]. intros [= <-].
  by eapply int_digits_nonneg, Hv.
Qed.

(** X16. A range that is returned has no negative bound: a frame number is
    read from digits alone, so a minus sign in front of the digits is not
    part of it. *)
Theorem pattern_range_nonnegative glob path lo hi :
  sequence_range_from_path glob path = Returns (Some (lo, hi)) →
  (0 ≤ lo ∧ 0 ≤ hi)%Z.
Proof.
  intros (root & ext & frames & _ & _ & Hframes & Hlo & Hhi & _)
    %sequence_range_inv.
  destruct (hit_of_frame _ _ _ _ Hframes Hlo) as (f1 & _ & H1).
  destruct (hit_of_frame _ _ _ _ Hframes Hhi) as (f2 & _ & H2).
  split; by eapply frame_of_root_nonneg.
Qed.

Lemma pattern_range_nonnegative_witness : (0 ≤ 3 ∧ 0 ≤ 5)%Z.
Proof.
  apply (pattern_range_nonnegative
           (Disk.glob ["temp_-5.dat"; "temp_-3.dat"]) "temp_-5.dat").
  vm_compute. reflexivity.
Defined.
